(** * Moravian-star lamp shade generator: parameter model and mesh builder

    A shallow embedding of [lampshade/utils.py], [lampshade/params.py] and
    [lampshade/geometry.py].

    Numeric model.  Python [int] fields are [Z].  Python [float] values are
    idealised as real numbers ([R]): rounding, overflow, infinities and NaN
    are not modelled, so [math.sin], [math.cos], [math.tan] and [math.pi] are
    the real [sin], [cos], [tan] and [PI], and [max]/[min]/[abs] on floats are
    [Rmax]/[Rmin]/[Rabs].  The one float operation that can raise on reals,
    division by a zero divisor, is modelled as a partial operation.  No
    statement below rests on the exact periodicity of the real sine and
    cosine or on a value of the tangent at an odd multiple of 90 degrees,
    where the reals and the floats part ways. *)

From Stdlib Require Import Reals ZArith List Lia Lra.
Import ListNotations.

Local Open Scope R_scope.

(** ** utils.py *)

(** [lerp(a, b, t) = a * (1.0 - t) + b * t] *)
Definition lerp (a b t : R) : R := a * (1 - t) + b * t.

(** [clamp(x, lo, hi) = max(lo, min(hi, x))] *)
Definition clamp (x lo hi : R) : R := Rmax lo (Rmin hi x).

(** ** params.py *)

(** The [Params] dataclass, field by field, in declaration order. *)
Record Params : Type := mkParams {
  (* Mount assembly fixed dimensions *)
  mountCylinderOuterDiameter : R;
  mountCylinderHeight : R;
  transitionHeight : R;
  transitionWidth : R;
  overhangAngle : Z;
  (* Slider ranges *)
  topDiameterMin : Z;
  topDiameterMax : Z;
  middleDiameterMin : Z;
  middleDiameterMax : Z;
  bottomDiameterMin : Z;
  bottomDiameterMax : Z;
  overhangAngleMin : Z;
  overhangAngleMax : Z;
  cylinderHeightMin : Z;
  cylinderHeightMax : Z;
  featureCountMin : Z;
  featureCountMax : Z;
  detailMin : Z;
  detailMax : Z;
  featureDepthMin : R;
  featureDepthMax : R;
  (* Main shape parameters *)
  topDiameter : Z;
  middleDiameter : Z;
  bottomDiameter : Z;
  cylinderHeight : Z;
  (* Design parameters *)
  featureCount : Z;
  featureDepth : R;
  (* Design mode and interpolation *)
  designMode : Z;
  interpolation : Z;
  (* Mesh detail *)
  detail : Z
}.

(** The dataclass defaults, [Params()]. *)
Definition default_params : Params := {|
  mountCylinderOuterDiameter := 13;
  mountCylinderHeight := 5.5;
  transitionHeight := 15;
  transitionWidth := 0;
  overhangAngle := 30;
  topDiameterMin := 16;
  topDiameterMax := 100;
  middleDiameterMin := 30;
  middleDiameterMax := 120;
  bottomDiameterMin := 30;
  bottomDiameterMax := 120;
  overhangAngleMin := 30;
  overhangAngleMax := 80;
  cylinderHeightMin := 50;
  cylinderHeightMax := 120;
  featureCountMin := 1;
  featureCountMax := 10;
  detailMin := 25;
  detailMax := 300;
  featureDepthMin := 0;
  featureDepthMax := 4;
  topDiameter := 30;
  middleDiameter := 70;
  bottomDiameter := 60;
  cylinderHeight := 80;
  featureCount := 6;
  featureDepth := 2;
  designMode := 1;
  interpolation := 0;
  detail := 120
|}.

(** Attribute assignments [self.f = v] used by the two update methods. *)
Definition set_transitionWidth (v : R) (P : Params) : Params :=
  mkParams (mountCylinderOuterDiameter P) (mountCylinderHeight P)
    (transitionHeight P) v (overhangAngle P)
    (topDiameterMin P) (topDiameterMax P) (middleDiameterMin P)
    (middleDiameterMax P) (bottomDiameterMin P) (bottomDiameterMax P)
    (overhangAngleMin P) (overhangAngleMax P) (cylinderHeightMin P)
    (cylinderHeightMax P) (featureCountMin P) (featureCountMax P)
    (detailMin P) (detailMax P) (featureDepthMin P) (featureDepthMax P)
    (topDiameter P) (middleDiameter P) (bottomDiameter P) (cylinderHeight P)
    (featureCount P) (featureDepth P) (designMode P) (interpolation P)
    (detail P).

Definition set_transitionHeight (v : R) (P : Params) : Params :=
  mkParams (mountCylinderOuterDiameter P) (mountCylinderHeight P)
    v (transitionWidth P) (overhangAngle P)
    (topDiameterMin P) (topDiameterMax P) (middleDiameterMin P)
    (middleDiameterMax P) (bottomDiameterMin P) (bottomDiameterMax P)
    (overhangAngleMin P) (overhangAngleMax P) (cylinderHeightMin P)
    (cylinderHeightMax P) (featureCountMin P) (featureCountMax P)
    (detailMin P) (detailMax P) (featureDepthMin P) (featureDepthMax P)
    (topDiameter P) (middleDiameter P) (bottomDiameter P) (cylinderHeight P)
    (featureCount P) (featureDepth P) (designMode P) (interpolation P)
    (detail P).

Definition set_featureDepthMax (v : R) (P : Params) : Params :=
  mkParams (mountCylinderOuterDiameter P) (mountCylinderHeight P)
    (transitionHeight P) (transitionWidth P) (overhangAngle P)
    (topDiameterMin P) (topDiameterMax P) (middleDiameterMin P)
    (middleDiameterMax P) (bottomDiameterMin P) (bottomDiameterMax P)
    (overhangAngleMin P) (overhangAngleMax P) (cylinderHeightMin P)
    (cylinderHeightMax P) (featureCountMin P) (featureCountMax P)
    (detailMin P) (detailMax P) (featureDepthMin P) v
    (topDiameter P) (middleDiameter P) (bottomDiameter P) (cylinderHeight P)
    (featureCount P) (featureDepth P) (designMode P) (interpolation P)
    (detail P).

Definition set_featureDepth (v : R) (P : Params) : Params :=
  mkParams (mountCylinderOuterDiameter P) (mountCylinderHeight P)
    (transitionHeight P) (transitionWidth P) (overhangAngle P)
    (topDiameterMin P) (topDiameterMax P) (middleDiameterMin P)
    (middleDiameterMax P) (bottomDiameterMin P) (bottomDiameterMax P)
    (overhangAngleMin P) (overhangAngleMax P) (cylinderHeightMin P)
    (cylinderHeightMax P) (featureCountMin P) (featureCountMax P)
    (detailMin P) (detailMax P) (featureDepthMin P) (featureDepthMax P)
    (topDiameter P) (middleDiameter P) (bottomDiameter P) (cylinderHeight P)
    (featureCount P) v (designMode P) (interpolation P)
    (detail P).

(** [math.radians(x)]: degrees to radians. *)
Definition radians (d : R) : R := d * (PI / 180).

(** [Params.update_transition]: two assignments in sequence; the second
    reads the [transitionWidth] just written. *)
Definition update_transition (P : Params) : Params :=
  let P1 :=
    set_transitionWidth
      ((IZR (topDiameter P) - mountCylinderOuterDiameter P) / 2) P in
  set_transitionHeight
    (Rmax 0 (transitionWidth P1) * tan (radians (IZR (overhangAngle P1)))) P1.

(** [smallestMainCylinderRadius] of [update_feature_depth_max]. *)
Definition smallestMainCylinderRadius (P : Params) : R :=
  Rmin (Rmin (IZR (topDiameter P) + transitionWidth P)
             (IZR (bottomDiameter P)))
       (IZR (middleDiameter P)) / 2.

(** [outerRadius] of [update_feature_depth_max]. *)
Definition outerRadius (P : Params) : R := mountCylinderOuterDiameter P / 2.

(** [Params.update_feature_depth_max]: [featureDepthMax] is assigned first,
    and the clamp of [featureDepth] reads the new value. *)
Definition update_feature_depth_max (P : Params) : Params :=
  let P1 :=
    set_featureDepthMax
      (Rmin (Rmax 0 (smallestMainCylinderRadius P - outerRadius P))
            (featureDepthMax P)) P in
  set_featureDepth
    (clamp (featureDepth P1) (featureDepthMin P1)
           (Rmax (featureDepthMin P1) (featureDepthMax P1))) P1.

(** ** geometry.py: profile, pattern, outer vertex *)

(** [quadratic_profile(u, P)] *)
Definition quadratic_profile (u : R) (P : Params) : R :=
  if (interpolation P =? 1)%Z then
    2 * (u - 1) * (u - 0.5) * (IZR (topDiameter P) / 2)
    - 4 * (u - 1) * u * (IZR (middleDiameter P) / 2)
    + 2 * u * (u - 0.5) * (IZR (bottomDiameter P) / 2)
  else if (interpolation P =? 2)%Z then
    if Rle_dec u 0.5 then
      let t := u / 0.5 in
      lerp (IZR (topDiameter P) / 2) (IZR (middleDiameter P) / 2) t
    else
      let t := (u - 0.5) / 0.5 in
      lerp (IZR (middleDiameter P) / 2) (IZR (bottomDiameter P) / 2) t
  else
    let t := u in
    (1 - t) * (1 - t) * (IZR (topDiameter P) / 2)
    + 2 * (1 - t) * t * (IZR (middleDiameter P) / 2)
    + t * t * (IZR (bottomDiameter P) / 2).

(** [math.floor] on a real: the integer part. *)
Definition floor (r : R) : Z := Int_part r.

(** [design_offset(u, v, P)] *)
Definition design_offset (u v : R) (P : Params) : R :=
  if (designMode P <=? 0)%Z then 0
  else
    let fd := featureDepth P in
    let fc := IZR (featureCount P) in
    let m := designMode P in
    if (m =? 1)%Z then fd * sin (fc * PI * u) * cos (fc * v)
    else if (m =? 2)%Z then fd * sin (fc * (v + PI * u))
    else if (m =? 3)%Z then fd * Rabs (sin (fc * v))
    else if (m =? 4)%Z then
      fd * (Rabs (sin (fc * PI * u)) + Rabs (sin (fc * v)))
    else if (m =? 5)%Z then fd * sin (fc * (v + u)) * sin (fc * (v - u))
    else if (m =? 6)%Z then fd * sin (fc * (v + 0.5 * sin (2 * PI * u)))
    else if (m =? 7)%Z then
      fd * (Rabs (sin (fc * v)) - Rabs (sin (fc * PI * u)))
    else if (m =? 8)%Z then
      fd * 0.5 * (sin (fc * v) + sin ((fc + 1) * v + 2 * PI * u))
    else if (m =? 9)%Z then fd * 0.7 * cos (fc * 2 * PI * u)
    else if (m =? 10)%Z then
      let phase := fc * u in
      fd * 0.8 * Rabs (2 * (phase - IZR (floor (phase + 0.5))))
    else if (m =? 11)%Z then fd * 0.9 * Rabs (sin (fc * PI * u + v))
    else if (m =? 12)%Z then
      let d := cos (fc * 2 * PI * u + 2 * v) + 0.7 * sin (fc * v + u * 2.7) in
      fd * 0.5 * d
    else 0.

(** A point [np.array([x, y, z])]. *)
Record vec3 : Type := mkVec3 { vx : R; vy : R; vz : R }.

(** [compute_outer_vertex(u, v, P)] *)
Definition compute_outer_vertex (u v : R) (P : Params) : vec3 :=
  let baseR := quadratic_profile u P in
  let offset := design_offset u v P in
  let r := Rmax 0 (baseR + offset) in
  let x := r * cos v in
  let z := r * sin v in
  let y := lerp (IZR (cylinderHeight P) / 2) (IZR (- cylinderHeight P) / 2) u in
  mkVec3 x y z.

(** ** geometry.py: the mesh builder *)

(** A face [(a, b, c)] of vertex indices. *)
Definition tri : Type := (Z * Z * Z)%type.

(** The two local lists [vertices] and [faces] of [build_mesh_arrays]. *)
Record mesh : Type := mkMesh { vertices : list vec3; faces : list tri }.

Definition empty_mesh : mesh := mkMesh [] [].

(** Builder computations thread the two lists that the closures
    [add_vertex] and [add_tri] append to, and may raise. *)
Definition M (A : Type) : Type := mesh -> option (A * mesh).

Definition ret {A : Type} (a : A) : M A := fun s => Some (a, s).

Definition bind {A B : Type} (c : M A) (k : A -> M B) : M B :=
  fun s => match c s with
           | Some (a, s') => k a s'
           | None => None
           end.

Definition raise {A : Type} : M A := fun _ => None.

Notation "x <- c ;; k" := (bind c (fun x => k))
  (at level 61, c at next level, right associativity).
Notation "c ;; k" := (bind c (fun _ => k))
  (at level 61, right associativity).

(** Float division [a / b]: [ZeroDivisionError] on a zero divisor. *)
Definition fdiv (a b : R) : M R :=
  if Req_dec_T b 0 then raise else ret (a / b).

(** [add_vertex(p)]: append, return [len(vertices) - 1]. *)
Definition add_vertex (p : vec3) : M Z :=
  fun s =>
    let vs := vertices s ++ [p] in
    Some ((Z.of_nat (length vs) - 1)%Z, mkMesh vs (faces s)).

(** [add_tri(a, b, c)]: append the face. *)
Definition add_tri (a b c : Z) : M unit :=
  fun s => Some (tt, mkMesh (vertices s) (faces s ++ [(a, b, c)])).

(** [range(n)]: [0, 1, ..., n-1], empty when [n <= 0]. *)
Definition range (n : Z) : list Z := map Z.of_nat (seq 0 (Z.to_nat n)).

(** [for x in xs: body(x)] *)
Fixpoint for_each {A : Type} (xs : list A) (body : A -> M unit) : M unit :=
  match xs with
  | [] => ret tt
  | x :: rest => body x ;; for_each rest body
  end.

(** [v_at(j, n) = (float(j) / float(n)) * (2.0 * math.pi)] *)
Definition v_at (j n : Z) : M R :=
  q <- fdiv (IZR j) (IZR n) ;;
  ret (q * (2 * PI)).

(** 1) Main outer surface quilt. *)
Definition outer_surface (P : Params) (detail : Z) : M unit :=
  for_each (range detail) (fun i =>
    u1 <- fdiv (IZR i) (IZR detail) ;;
    u2 <- fdiv (IZR (i + 1)) (IZR detail) ;;
    for_each (range detail) (fun j =>
      v1 <- v_at j detail ;;
      v2 <- v_at (j + 1) detail ;;
      p1 <- add_vertex (compute_outer_vertex u1 v1 P) ;;
      p2 <- add_vertex (compute_outer_vertex u2 v1 P) ;;
      p3 <- add_vertex (compute_outer_vertex u2 v2 P) ;;
      p4 <- add_vertex (compute_outer_vertex u1 v2 P) ;;
      add_tri p1 p2 p3 ;;
      add_tri p1 p3 p4)).

(** The centre vertex of the bottom fan. *)
Definition bottom_centre (P : Params) : vec3 :=
  mkVec3 0 (IZR (- cylinderHeight P) / 2) 0.

(** 1b) Bottom cap (flat fan). *)
Definition bottom_cap (P : Params) (detail : Z) : M unit :=
  center_bottom <- add_vertex (bottom_centre P) ;;
  for_each (range detail) (fun j =>
    v1 <- v_at j detail ;;
    v2 <- v_at (j + 1) detail ;;
    p1 <- add_vertex (compute_outer_vertex 1 v1 P) ;;
    p2 <- add_vertex (compute_outer_vertex 1 v2 P) ;;
    add_tri center_bottom p1 p2).

(** 2) Transition from top rim to mount radius. *)
Definition transition_surface (P : Params) (detail : Z) : M unit :=
  let transBottomY := IZR (cylinderHeight P) / 2 in
  let transTopY := transBottomY + transitionHeight P in
  let topR := mountCylinderOuterDiameter P / 2 in
  for_each (range detail) (fun i =>
    t1 <- fdiv (IZR i) (IZR detail) ;;
    t2 <- fdiv (IZR (i + 1)) (IZR detail) ;;
    let y1 := lerp transBottomY transTopY t1 in
    let y2 := lerp transBottomY transTopY t2 in
    for_each (range detail) (fun j =>
      a1 <- v_at j detail ;;
      a2 <- v_at (j + 1) detail ;;
      let bottomV1 := compute_outer_vertex 0 a1 P in
      let bottomV2 := compute_outer_vertex 0 a2 P in
      let topV1 := mkVec3 (topR * cos a1) transTopY (topR * sin a1) in
      let topV2 := mkVec3 (topR * cos a2) transTopY (topR * sin a2) in
      let x1 := lerp (vx bottomV1) (vx topV1) t1 in
      let z1 := lerp (vz bottomV1) (vz topV1) t1 in
      let x2 := lerp (vx bottomV1) (vx topV1) t2 in
      let z2 := lerp (vz bottomV1) (vz topV1) t2 in
      let x3 := lerp (vx bottomV2) (vx topV2) t2 in
      let z3 := lerp (vz bottomV2) (vz topV2) t2 in
      let x4 := lerp (vx bottomV2) (vx topV2) t1 in
      let z4 := lerp (vz bottomV2) (vz topV2) t1 in
      P1 <- add_vertex (mkVec3 x1 y1 z1) ;;
      P2 <- add_vertex (mkVec3 x2 y2 z2) ;;
      P3 <- add_vertex (mkVec3 x3 y2 z3) ;;
      P4 <- add_vertex (mkVec3 x4 y1 z4) ;;
      add_tri P1 P2 P3 ;;
      add_tri P1 P3 P4)).

(** [cylBottomY], [cylTopY] and [r_out] of the mount cylinder. *)
Definition cylBottomY (P : Params) : R :=
  IZR (cylinderHeight P) / 2 + transitionHeight P.
Definition cylTopY (P : Params) : R := cylBottomY P + mountCylinderHeight P.
Definition r_out (P : Params) : R := mountCylinderOuterDiameter P / 2.

(** 3) Mount cylinder: side wall. *)
Definition mount_side_wall (P : Params) (detail : Z) : M unit :=
  for_each (range detail) (fun i =>
    a1 <- v_at i detail ;;
    a2 <- v_at (i + 1) detail ;;
    p1 <- add_vertex (mkVec3 (r_out P * cos a1) (cylBottomY P) (r_out P * sin a1)) ;;
    p2 <- add_vertex (mkVec3 (r_out P * cos a1) (cylTopY P) (r_out P * sin a1)) ;;
    p3 <- add_vertex (mkVec3 (r_out P * cos a2) (cylTopY P) (r_out P * sin a2)) ;;
    p4 <- add_vertex (mkVec3 (r_out P * cos a2) (cylBottomY P) (r_out P * sin a2)) ;;
    add_tri p1 p2 p3 ;;
    add_tri p1 p3 p4).

(** The apex vertex of the top fan. *)
Definition top_centre (P : Params) : vec3 := mkVec3 0 (cylTopY P) 0.

(** 3) Mount cylinder: top cap. *)
Definition top_cap (P : Params) (detail : Z) : M unit :=
  center_top <- add_vertex (top_centre P) ;;
  for_each (range detail) (fun j =>
    a1 <- v_at j detail ;;
    a2 <- v_at (j + 1) detail ;;
    p1 <- add_vertex (mkVec3 (r_out P * cos a1) (cylTopY P) (r_out P * sin a1)) ;;
    p2 <- add_vertex (mkVec3 (r_out P * cos a2) (cylTopY P) (r_out P * sin a2)) ;;
    add_tri center_top p2 p1).

(** The five regions in source order, over the parameters as they stand
    after the two update calls. *)
Definition build_regions (P : Params) : M unit :=
  let detail := detail P in
  outer_surface P detail ;;
  bottom_cap P detail ;;
  transition_surface P detail ;;
  mount_side_wall P detail ;;
  top_cap P detail.

(** The two update calls that open [build_mesh_arrays]. *)
Definition derive (P : Params) : Params :=
  update_feature_depth_max (update_transition P).

(** [build_mesh_arrays(P)].  The argument is mutated in place, so the result
    pairs the final state of [P] with the returned [(V, F)], or [None] when
    an exception escapes. *)
Definition build_mesh_arrays (P : Params)
  : Params * option (list vec3 * list tri) :=
  let P' := derive P in
  (P', match build_regions P' empty_mesh with
       | Some (_, s) => Some (vertices s, faces s)
       | None => None
       end).

(** ** viewer.py: camera-relative light *)

(** The attributes of the turntable camera that [MeshViewer] reads. *)
Record camera : Type := mkCamera {
  center : vec3;
  distance : R;
  elevation : R;
  azimuth : R
}.

(** [np.linalg.norm] of a 3-vector. *)
Definition norm (p : vec3) : R := sqrt (vx p * vx p + vy p * vy p + vz p * vz p).

(** [MeshViewer._camera_position] *)
Definition camera_position (cam : camera) : vec3 :=
  let cx := vx (center cam) in
  let cy := vy (center cam) in
  let cz := vz (center cam) in
  let r := distance cam in
  let elev := radians (elevation cam) in
  let azim := radians (azimuth cam) in
  let x := cx + r * cos elev * cos azim in
  let y := cy + r * sin elev in
  let z := cz + r * cos elev * sin azim in
  mkVec3 x y z.

(** The direction computed by [MeshViewer.update_light]: [None] on the
    early return for [n < 1e-9], else [dir_vec / n]. *)
Definition light_direction (cam : camera) : option vec3 :=
  let cam_pos := camera_position cam in
  let dir_vec :=
    mkVec3 (vx (center cam) - vx cam_pos) (vy (center cam) - vy cam_pos)
           (vz (center cam) - vz cam_pos) in
  let n := norm dir_vec in
  if Rlt_dec n (1 / 10 ^ 9) then None
  else Some (mkVec3 (vx dir_vec / n) (vy dir_vec / n) (vz dir_vec / n)).

(** ** The builder's output in closed form *)

(** The value [v_at(j, n)] returns when [n] is not zero. *)
Definition angle (j n : Z) : R := IZR j / IZR n * (2 * PI).

(** The four corners appended for cell [(i, j)] of the outer surface. *)
Definition outer_cell (P : Params) (D i j : Z) : list vec3 :=
  let u1 := IZR i / IZR D in
  let u2 := IZR (i + 1) / IZR D in
  let v1 := angle j D in
  let v2 := angle (j + 1) D in
  [compute_outer_vertex u1 v1 P; compute_outer_vertex u2 v1 P;
   compute_outer_vertex u2 v2 P; compute_outer_vertex u1 v2 P].

(** The two rim samples appended for step [j] of the bottom fan. *)
Definition bottom_rim_cell (P : Params) (D j : Z) : list vec3 :=
  [compute_outer_vertex 1 (angle j D) P;
   compute_outer_vertex 1 (angle (j + 1) D) P].

(** The four corners appended for cell [(i, j)] of the transition. *)
Definition transition_cell (P : Params) (D i j : Z) : list vec3 :=
  let transBottomY := IZR (cylinderHeight P) / 2 in
  let transTopY := transBottomY + transitionHeight P in
  let topR := mountCylinderOuterDiameter P / 2 in
  let t1 := IZR i / IZR D in
  let t2 := IZR (i + 1) / IZR D in
  let y1 := lerp transBottomY transTopY t1 in
  let y2 := lerp transBottomY transTopY t2 in
  let a1 := angle j D in
  let a2 := angle (j + 1) D in
  let bottomV1 := compute_outer_vertex 0 a1 P in
  let bottomV2 := compute_outer_vertex 0 a2 P in
  let topV1 := mkVec3 (topR * cos a1) transTopY (topR * sin a1) in
  let topV2 := mkVec3 (topR * cos a2) transTopY (topR * sin a2) in
  [mkVec3 (lerp (vx bottomV1) (vx topV1) t1) y1
          (lerp (vz bottomV1) (vz topV1) t1);
   mkVec3 (lerp (vx bottomV1) (vx topV1) t2) y2
          (lerp (vz bottomV1) (vz topV1) t2);
   mkVec3 (lerp (vx bottomV2) (vx topV2) t2) y2
          (lerp (vz bottomV2) (vz topV2) t2);
   mkVec3 (lerp (vx bottomV2) (vx topV2) t1) y1
          (lerp (vz bottomV2) (vz topV2) t1)].

(** A point of the mount circle at height [y]. *)
Definition mount_point (P : Params) (a y : R) : vec3 :=
  mkVec3 (r_out P * cos a) y (r_out P * sin a).

(** The four corners appended for strip [i] of the mount side wall. *)
Definition side_cell (P : Params) (D i : Z) : list vec3 :=
  let a1 := angle i D in
  let a2 := angle (i + 1) D in
  [mount_point P a1 (cylBottomY P); mount_point P a1 (cylTopY P);
   mount_point P a2 (cylTopY P); mount_point P a2 (cylBottomY P)].

(** The two rim samples appended for step [j] of the top fan. *)
Definition top_rim_cell (P : Params) (D j : Z) : list vec3 :=
  [mount_point P (angle j D) (cylTopY P);
   mount_point P (angle (j + 1) D) (cylTopY P)].

(** Cells of a [detail x detail] grid, row by row. *)
Definition grid (D : Z) (cell : Z -> Z -> list vec3) : list vec3 :=
  flat_map (fun i => flat_map (cell i) (range D)) (range D).

(** The vertices of the five regions. *)
Definition shell_vertices (P : Params) : list vec3 :=
  grid (detail P) (outer_cell P (detail P)).
Definition bottom_cap_vertices (P : Params) : list vec3 :=
  bottom_centre P :: flat_map (bottom_rim_cell P (detail P)) (range (detail P)).
Definition transition_vertices (P : Params) : list vec3 :=
  grid (detail P) (transition_cell P (detail P)).
Definition side_wall_vertices (P : Params) : list vec3 :=
  flat_map (side_cell P (detail P)) (range (detail P)).
Definition top_cap_vertices (P : Params) : list vec3 :=
  top_centre P :: flat_map (top_rim_cell P (detail P)) (range (detail P)).

(** The whole vertex array. *)
Definition mesh_vertices (P : Params) : list vec3 :=
  shell_vertices P ++ bottom_cap_vertices P ++ transition_vertices P
  ++ side_wall_vertices P ++ top_cap_vertices P.

(** The two triangles of a quad whose corners start at index [b]. *)
Definition quad_faces (b : Z) : list tri :=
  [(b, b + 1, b + 2); (b, b + 2, b + 3)]%Z.

(** The triangle of step [j] of a fan around [c] whose rim samples start at
    [c + 1]; [flip] is the top cap's winding. *)
Definition fan_face (flip : bool) (c j : Z) : tri :=
  if flip then (c, c + 2 + 2 * j, c + 1 + 2 * j)%Z
  else (c, c + 1 + 2 * j, c + 2 + 2 * j)%Z.

(** Faces of a grid of quads, of a strip of quads, and of a fan. *)
Definition quad_grid_faces (D b : Z) : list tri :=
  flat_map (fun i =>
    flat_map (fun j => quad_faces (b + 4 * (i * D + j))) (range D)) (range D).
Definition quad_strip_faces (D b : Z) : list tri :=
  flat_map (fun i => quad_faces (b + 4 * i)) (range D).
Definition fan_faces (flip : bool) (D c : Z) : list tri :=
  map (fan_face flip c) (range D).

(** The whole face array for [detail = D]. *)
Definition mesh_faces (D : Z) : list tri :=
  (quad_grid_faces D 0
   ++ fan_faces false D (4 * D * D)
   ++ quad_grid_faces D (4 * D * D + 2 * D + 1)
   ++ quad_strip_faces D (8 * D * D + 2 * D + 1)
   ++ fan_faces true D (8 * D * D + 6 * D + 1))%Z.

(** A builder step that always returns [a], appending exactly the vertices
    [vs] and, when the vertex array held [b] rows before, the faces
    [fs b]; nothing already in the arrays is touched. *)
Definition writes {A : Type} (c : M A) (a : A) (vs : list vec3)
    (fs : Z -> list tri) : Prop :=
  forall s,
    c s = Some (a, mkMesh (vertices s ++ vs)
                          (faces s ++ fs (Z.of_nat (length (vertices s))))).

(** The three indices of a face are pairwise different. *)
Definition distinct_indices (t : tri) : Prop :=
  let '(a, b, c) := t in a <> b /\ b <> c /\ a <> c.

(** Face [t] has [k] among its three indices. *)
Definition uses_index (k : Z) (t : tri) : Prop :=
  let '(a, b, c) := t in k = a \/ k = b \/ k = c.

(** ** Sample inputs *)

(** [Params()] with some attributes reassigned: the fields a check varies,
    everything else at its default. *)
Definition custom_params (fdMin fd : R) (top fc mode interp det : Z)
  : Params := {|
  mountCylinderOuterDiameter := 13;
  mountCylinderHeight := 5.5;
  transitionHeight := 15;
  transitionWidth := 0;
  overhangAngle := 30;
  topDiameterMin := 16;
  topDiameterMax := 100;
  middleDiameterMin := 30;
  middleDiameterMax := 120;
  bottomDiameterMin := 30;
  bottomDiameterMax := 120;
  overhangAngleMin := 30;
  overhangAngleMax := 80;
  cylinderHeightMin := 50;
  cylinderHeightMax := 120;
  featureCountMin := 1;
  featureCountMax := 10;
  detailMin := 25;
  detailMax := 300;
  featureDepthMin := fdMin;
  featureDepthMax := 4;
  topDiameter := top;
  middleDiameter := 70;
  bottomDiameter := 60;
  cylinderHeight := 80;
  featureCount := fc;
  featureDepth := fd;
  designMode := mode;
  interpolation := interp;
  detail := det
|}.

(** ** Notions used to state properties *)

(** Distance of a point from the vertical axis, [sqrt(x^2 + z^2)]. *)
Definition radial_distance (p : vec3) : R := sqrt (vx p * vx p + vz p * vz p).

(** An index that is a valid position in an array of [n] rows. *)
Definition valid_index (n : nat) (i : Z) : Prop := (0 <= i < Z.of_nat n)%Z.

(** A face whose three indices are valid positions. *)
Definition valid_face (n : nat) (t : tri) : Prop :=
  let '(a, b, c) := t in valid_index n a /\ valid_index n b /\ valid_index n c.

(** Every face of the mesh refers to vertices of the mesh. *)
Definition faces_in_bounds (s : mesh) : Prop :=
  Forall (valid_face (length (vertices s))) (faces s).

(** A builder step that, from any well-indexed mesh holding at least [lo]
    vertices, returns normally, keeps the mesh well-indexed and appends
    exactly [kv] vertices and [kf] faces. *)
Definition appends {A : Type} (lo kv kf : nat) (c : M A) : Prop :=
  forall s, faces_in_bounds s -> (lo <= length (vertices s))%nat ->
    exists a s',
      c s = Some (a, s')
      /\ faces_in_bounds s'
      /\ length (vertices s') = (length (vertices s) + kv)%nat
      /\ length (faces s') = (length (faces s) + kf)%nat.

(** Sizes of the two arrays, as integers. *)
Definition vertex_count (s : mesh) : Z := Z.of_nat (length (vertices s)).
Definition face_count (s : mesh) : Z := Z.of_nat (length (faces s)).

(** [P'] agrees with [P] on every field other than the four derived ones
    ([transitionWidth], [transitionHeight], [featureDepthMax],
    [featureDepth]). *)
Definition same_inputs (P P' : Params) : Prop :=
  mountCylinderOuterDiameter P' = mountCylinderOuterDiameter P
  /\ mountCylinderHeight P' = mountCylinderHeight P
  /\ overhangAngle P' = overhangAngle P
  /\ topDiameterMin P' = topDiameterMin P
  /\ topDiameterMax P' = topDiameterMax P
  /\ middleDiameterMin P' = middleDiameterMin P
  /\ middleDiameterMax P' = middleDiameterMax P
  /\ bottomDiameterMin P' = bottomDiameterMin P
  /\ bottomDiameterMax P' = bottomDiameterMax P
  /\ overhangAngleMin P' = overhangAngleMin P
  /\ overhangAngleMax P' = overhangAngleMax P
  /\ cylinderHeightMin P' = cylinderHeightMin P
  /\ cylinderHeightMax P' = cylinderHeightMax P
  /\ featureCountMin P' = featureCountMin P
  /\ featureCountMax P' = featureCountMax P
  /\ detailMin P' = detailMin P
  /\ detailMax P' = detailMax P
  /\ featureDepthMin P' = featureDepthMin P
  /\ topDiameter P' = topDiameter P
  /\ middleDiameter P' = middleDiameter P
  /\ bottomDiameter P' = bottomDiameter P
  /\ cylinderHeight P' = cylinderHeight P
  /\ featureCount P' = featureCount P
  /\ designMode P' = designMode P
  /\ interpolation P' = interpolation P
  /\ detail P' = detail P.

(** * Parameter derivation *)

Section Derivation.

Variable P : Params.

(** Fields read by [update_feature_depth_max] and left alone by it. *)
Lemma update_feature_depth_max_radius :
  smallestMainCylinderRadius (update_feature_depth_max P)
  = smallestMainCylinderRadius P.
Proof. reflexivity. Qed.

Lemma update_feature_depth_max_outer :
  mountCylinderOuterDiameter (update_feature_depth_max P)
  = mountCylinderOuterDiameter P.
Proof. reflexivity. Qed.

(** The new [featureDepthMax] never exceeds the clearance, floored at 0. *)
Lemma featureDepthMax_le_clearance :
  featureDepthMax (update_feature_depth_max P)
  <= Rmax 0 (smallestMainCylinderRadius P - outerRadius P).
Proof. cbn. apply Rmin_l. Qed.

(** The clamped depth lies in
    [[featureDepthMin, max(featureDepthMin, featureDepthMax)]]. *)
Lemma featureDepth_clamped :
  let P' := update_feature_depth_max P in
  featureDepthMin P' <= featureDepth P'
  <= Rmax (featureDepthMin P') (featureDepthMax P').
Proof.
  cbn. unfold clamp. split.
  - apply Rmax_l.
  - apply Rmax_lub; [apply Rmax_l | apply Rmin_l].
Qed.

(** The lower slider bound wins: the clamped depth is never below it. *)
Lemma featureDepthMin_le_featureDepth :
  featureDepthMin P <= featureDepth (update_feature_depth_max P).
Proof. apply featureDepth_clamped. Qed.

End Derivation.

(** When the mount radius does not exceed the smallest main radius and the
    lower slider bound [featureDepthMin] does not exceed the clearance
    between the two, the depth left by [update_feature_depth_max] plus the
    mount radius stays within the smallest main radius. *)
Lemma update_feature_depth_max_no_piercing (P : Params) :
  mountCylinderOuterDiameter P / 2 <= smallestMainCylinderRadius P ->
  featureDepthMin P
    <= smallestMainCylinderRadius P - mountCylinderOuterDiameter P / 2 ->
  let P' := update_feature_depth_max P in
  featureDepth P' + mountCylinderOuterDiameter P' / 2
    <= smallestMainCylinderRadius P'.
Proof.
  intros Hmount Hmin P'.
  pose proof (featureDepth_clamped P) as [_ Hhi].
  pose proof (featureDepthMax_le_clearance P) as Hmax.
  fold P' in Hhi.
  unfold P' in *.
  rewrite update_feature_depth_max_radius, update_feature_depth_max_outer.
  change (featureDepthMin (update_feature_depth_max P))
    with (featureDepthMin P) in Hhi.
  unfold outerRadius in Hmax.
  rewrite Rmax_right in Hmax by lra.
  assert (Rmax (featureDepthMin P)
               (featureDepthMax (update_feature_depth_max P))
          <= smallestMainCylinderRadius P - mountCylinderOuterDiameter P / 2)
    by (apply Rmax_lub; lra).
  lra.
Qed.

(** At the dataclass defaults the clearance is 15 - 6.5. *)
Lemma update_feature_depth_max_no_piercing_witness :
  let P' := update_feature_depth_max default_params in
  featureDepth P' + mountCylinderOuterDiameter P' / 2
    <= smallestMainCylinderRadius P'.
Proof.
  apply (update_feature_depth_max_no_piercing default_params);
    unfold smallestMainCylinderRadius, default_params; cbn;
    unfold Rmin; repeat destruct Rle_dec; lra.
Defined.

(** The premise on [featureDepthMin] is also necessary. *)
Lemma update_feature_depth_max_piercing (P : Params) :
  smallestMainCylinderRadius P - mountCylinderOuterDiameter P / 2
    < featureDepthMin P ->
  let P' := update_feature_depth_max P in
  smallestMainCylinderRadius P'
    < featureDepth P' + mountCylinderOuterDiameter P' / 2.
Proof.
  intros H P'. pose proof (featureDepthMin_le_featureDepth P) as Hlo.
  fold P' in Hlo. unfold P' in *.
  rewrite update_feature_depth_max_radius, update_feature_depth_max_outer.
  lra.
Qed.

(** C7: after [update_transition], [transitionWidth] is
    [(topDiameter - mountCylinderOuterDiameter)/2] and [transitionHeight] is
    [max(0, transitionWidth) * tan(overhangAngle in radians)]; the inputs of
    both formulas are the caller's. *)
Theorem update_transition_fields (P : Params) :
  let P' := update_transition P in
  transitionWidth P'
    = (IZR (topDiameter P') - mountCylinderOuterDiameter P') / 2
  /\ transitionHeight P'
    = Rmax 0 (transitionWidth P') * tan (IZR (overhangAngle P') * PI / 180)
  /\ topDiameter P' = topDiameter P
  /\ mountCylinderOuterDiameter P' = mountCylinderOuterDiameter P
  /\ overhangAngle P' = overhangAngle P.
Proof.
  cbn. repeat split. unfold radians. f_equal. f_equal. field.
Qed.

(** A mount wider than the shade top gives a negative width and no rise. *)
Lemma update_transition_negative_width (P : Params) :
  IZR (topDiameter P) < mountCylinderOuterDiameter P ->
  transitionWidth (update_transition P) < 0
  /\ transitionHeight (update_transition P) = 0.
Proof.
  intros H. cbn. split; [lra|].
  rewrite Rmax_left by lra. apply Rmult_0_l.
Qed.

(** * Radial profile *)

Section Profile.

Variable P : Params.

Lemma quadratic_profile_top :
  quadratic_profile 0 P = IZR (topDiameter P) / 2.
Proof.
  unfold quadratic_profile, lerp.
  destruct (interpolation P =? 1)%Z; [lra|].
  destruct (interpolation P =? 2)%Z; [|lra].
  destruct (Rle_dec 0 0.5); lra.
Qed.

Lemma quadratic_profile_bottom :
  quadratic_profile 1 P = IZR (bottomDiameter P) / 2.
Proof.
  unfold quadratic_profile, lerp.
  destruct (interpolation P =? 1)%Z; [lra|].
  destruct (interpolation P =? 2)%Z; [|lra].
  destruct (Rle_dec 1 0.5); lra.
Qed.

(** The Lagrange form also passes through the middle radius. *)
Lemma quadratic_profile_lagrange_middle :
  interpolation P = 1%Z ->
  quadratic_profile 0.5 P = IZR (middleDiameter P) / 2.
Proof.
  intros H. unfold quadratic_profile. rewrite H. cbn. lra.
Qed.

End Profile.

(** C5: in each interpolation mode (1 = Lagrange, 2 = piecewise linear, and
    the Bezier branch taken for 0 and every other selector value) the profile
    is [topDiameter/2] at [u = 0] and [bottomDiameter/2] at [u = 1]; on reals
    the equalities are exact, hence within any tolerance. *)
Theorem quadratic_profile_anchors (P : Params) :
  quadratic_profile 0 P = IZR (topDiameter P) / 2
  /\ quadratic_profile 1 P = IZR (bottomDiameter P) / 2
  /\ Rabs (quadratic_profile 0 P - IZR (topDiameter P) / 2) <= 1 / 10 ^ 9
  /\ Rabs (quadratic_profile 1 P - IZR (bottomDiameter P) / 2) <= 1 / 10 ^ 9.
Proof.
  rewrite quadratic_profile_top, quadratic_profile_bottom.
  repeat split; unfold Rminus; rewrite Rplus_opp_r, Rabs_R0;
    apply Rlt_le, Rdiv_lt_0_compat; [lra | apply pow_lt; lra | lra | apply pow_lt; lra].
Qed.

(** * Pattern displacement *)

Section Pattern.

Lemma Rabs_sin_le_1 (a : R) : Rabs (sin a) <= 1.
Proof. apply Rabs_le. pose proof (SIN_bound a). lra. Qed.

Lemma Rabs_cos_le_1 (a : R) : Rabs (cos a) <= 1.
Proof. apply Rabs_le. pose proof (COS_bound a). lra. Qed.

(** [fd * k] is within [c * |fd|] when [|k| <= c]. *)
Lemma Rabs_scale_le (fd k c : R) :
  Rabs k <= c -> Rabs (fd * k) <= c * Rabs fd.
Proof.
  intros H. rewrite Rabs_mult. pose proof (Rabs_pos fd). nra.
Qed.

Lemma Rabs_prod_le_1 (a b : R) :
  Rabs a <= 1 -> Rabs b <= 1 -> Rabs (a * b) <= 1.
Proof.
  intros Ha Hb. rewrite Rabs_mult.
  pose proof (Rabs_pos a). pose proof (Rabs_pos b). nra.
Qed.

(** The triangle wave of mode 10 stays within [[0, 1]]. *)
Lemma triangle_wave_le_1 (phase : R) :
  Rabs (2 * (phase - IZR (floor (phase + 0.5)))) <= 1.
Proof.
  unfold floor. destruct (base_Int_part (phase + 0.5)) as [H1 H2].
  apply Rabs_le. lra.
Qed.

End Pattern.

(** In every design mode the displacement is within
    [2 * |featureDepth|]. *)
Lemma design_offset_bound (u v : R) (P : Params) :
  Rabs (design_offset u v P) <= 2 * Rabs (featureDepth P).
Proof.
  assert (H0 : Rabs 0 <= 2 * Rabs (featureDepth P))
    by (rewrite Rabs_R0; pose proof (Rabs_pos (featureDepth P)); lra).
  unfold design_offset.
  destruct (designMode P <=? 0)%Z; [exact H0|].
  set (fd := featureDepth P). set (fc := IZR (featureCount P)). cbv zeta.
  repeat match goal with
    | |- context [if ?b then _ else _] => destruct b
    end; try exact H0.
  - rewrite Rmult_assoc. apply Rabs_scale_le.
    pose proof (Rabs_prod_le_1 _ _ (Rabs_sin_le_1 (fc * PI * u))
                  (Rabs_cos_le_1 (fc * v))). lra.
  - apply Rabs_scale_le. pose proof (Rabs_sin_le_1 (fc * (v + PI * u))). lra.
  - apply Rabs_scale_le. rewrite Rabs_Rabsolu.
    pose proof (Rabs_sin_le_1 (fc * v)). lra.
  - apply Rabs_scale_le.
    pose proof (Rabs_sin_le_1 (fc * PI * u)). pose proof (Rabs_sin_le_1 (fc * v)).
    pose proof (Rabs_pos (sin (fc * PI * u))). pose proof (Rabs_pos (sin (fc * v))).
    apply Rabs_le. lra.
  - rewrite Rmult_assoc. apply Rabs_scale_le.
    pose proof (Rabs_prod_le_1 _ _ (Rabs_sin_le_1 (fc * (v + u)))
                  (Rabs_sin_le_1 (fc * (v - u)))). lra.
  - apply Rabs_scale_le.
    pose proof (Rabs_sin_le_1 (fc * (v + 0.5 * sin (2 * PI * u)))). lra.
  - apply Rabs_scale_le.
    pose proof (Rabs_sin_le_1 (fc * PI * u)). pose proof (Rabs_sin_le_1 (fc * v)).
    pose proof (Rabs_pos (sin (fc * PI * u))). pose proof (Rabs_pos (sin (fc * v))).
    apply Rabs_le. lra.
  - rewrite Rmult_assoc. apply Rabs_scale_le.
    pose proof (SIN_bound (fc * v)).
    pose proof (SIN_bound ((fc + 1) * v + 2 * PI * u)).
    apply Rabs_le. lra.
  - rewrite Rmult_assoc. apply Rabs_scale_le.
    pose proof (COS_bound (fc * 2 * PI * u)). apply Rabs_le. lra.
  - rewrite Rmult_assoc. apply Rabs_scale_le.
    pose proof (triangle_wave_le_1 (fc * u)) as H.
    pose proof (Rabs_pos (2 * (fc * u - IZR (floor (fc * u + 0.5))))).
    apply Rabs_le. lra.
  - rewrite Rmult_assoc. apply Rabs_scale_le.
    pose proof (Rabs_sin_le_1 (fc * PI * u + v)).
    pose proof (Rabs_pos (sin (fc * PI * u + v))).
    apply Rabs_le. lra.
  - rewrite Rmult_assoc. apply Rabs_scale_le.
    pose proof (COS_bound (fc * 2 * PI * u + 2 * v)).
    pose proof (SIN_bound (fc * v + u * 2.7)).
    apply Rabs_le. lra.
Qed.

(** C2: the code at the failing input.  Mode 4 (crosshatch) with
    [featureCount = 1] and [featureDepth = 1], sampled at [u = 0.5] and
    [v = pi/2], returns an offset of 2: twice [featureDepth], above the
    claimed [1.8 * featureDepth] and above the bound by [featureDepth] that
    the comment in the source promises. *)
Theorem design_offset_crosshatch_peak :
  let P := custom_params 0 1 30 1 4 0 120 in
  (1 <= designMode P <= 12)%Z
  /\ 0 <= 0.5 <= 1
  /\ 0 <= PI / 2 < 2 * PI
  /\ design_offset 0.5 (PI / 2) P = 2
  /\ ~ (Rabs (design_offset 0.5 (PI / 2) P) <= 1.8 * featureDepth P).
Proof.
  intros P.
  assert (H : design_offset 0.5 (PI / 2) P = 2).
  { unfold design_offset, P; cbn.
    replace (1 * PI * 0.5) with (PI / 2) by lra.
    replace (1 * (PI / 2)) with (PI / 2) by lra.
    rewrite sin_PI2, Rabs_R1. lra. }
  pose proof PI_RGT_0.
  split; [cbn; lia|]. split; [lra|]. split; [lra|]. split; [exact H|].
  rewrite H. change (featureDepth P) with 1.
  rewrite Rabs_right by lra. lra.
Qed.

(** * Outer-surface vertex *)

Section OuterVertex.

Variables (u v : R) (P : Params).

(** Outside 1..12 the dispatch falls to one of the two [return 0.0]. *)
Lemma design_offset_disabled :
  (designMode P <= 0 \/ 12 < designMode P)%Z -> design_offset u v P = 0.
Proof.
  intros H. unfold design_offset.
  destruct (Z.leb_spec (designMode P) 0); [reflexivity|].
  repeat match goal with
    | |- context [(?a =? ?b)%Z] => destruct (Z.eqb_spec a b); [lia|]
    end.
  reflexivity.
Qed.

(** The emitted point lies at distance [max(0, profile + pattern)]. *)
Lemma compute_outer_vertex_radius :
  radial_distance (compute_outer_vertex u v P)
  = Rmax 0 (quadratic_profile u P + design_offset u v P).
Proof.
  unfold radial_distance, compute_outer_vertex; cbn.
  set (r := Rmax 0 _).
  assert (0 <= r) by apply Rmax_l.
  replace (r * cos v * (r * cos v) + r * sin v * (r * sin v))
    with (r * r * (Rsqr (sin v) + Rsqr (cos v))) by (unfold Rsqr; ring).
  rewrite sin2_cos2, Rmult_1_r. now apply sqrt_square.
Qed.

End OuterVertex.

(** C6 (as amended): with [designMode] 0 or any value outside 1..12,
    [design_offset] is exactly 0 and the outer vertex lies at distance
    [max(0, quadratic_profile(u, P))] from the axis, whatever [v] is. *)
Theorem pattern_disabled_radius (u v : R) (P : Params) :
  (designMode P <= 0 \/ 12 < designMode P)%Z ->
  design_offset u v P = 0
  /\ radial_distance (compute_outer_vertex u v P)
     = Rmax 0 (quadratic_profile u P).
Proof.
  intros H. rewrite compute_outer_vertex_radius.
  rewrite (design_offset_disabled u v P H), Rplus_0_r. auto.
Qed.

(** Witness for C6: the defaults with the pattern switched off. *)
Lemma pattern_disabled_radius_witness :
  let P := custom_params 0 2 30 6 0 0 120 in
  design_offset 0.5 1 P = 0
  /\ radial_distance (compute_outer_vertex 0.5 1 P)
     = Rmax 0 (quadratic_profile 0.5 P).
Proof.
  apply (pattern_disabled_radius 0.5 1 (custom_params 0 2 30 6 0 0 120)).
  left. cbn. lia.
Defined.

(** C6 (as stated) fails: with [topDiameter = -2] the profile at the top rim
    is -1 while the emitted point sits on the axis. *)
Lemma pattern_disabled_radius_counterexample :
  let P := custom_params 0 2 (-2) 6 0 0 120 in
  designMode P = 0%Z
  /\ radial_distance (compute_outer_vertex 0 0 P) = 0
  /\ quadratic_profile 0 P = -1
  /\ radial_distance (compute_outer_vertex 0 0 P) <> quadratic_profile 0 P.
Proof.
  intros P.
  assert (Hp : quadratic_profile 0 P = -1).
  { rewrite quadratic_profile_top. change (topDiameter P) with (-2)%Z. lra. }
  assert (Hr : radial_distance (compute_outer_vertex 0 0 P) = 0).
  { rewrite compute_outer_vertex_radius, Hp.
    rewrite design_offset_disabled by (left; cbn; lia).
    apply Rmax_left. lra. }
  repeat split; auto. rewrite Hr, Hp. lra.
Qed.

(** C1: the code at the failing input.  With [topDiameter = 16] (the lower
    end of its slider), design mode 2 and everything else at its default,
    the two update calls leave [featureDepth = 2]: the clearance is taken
    from [topDiameter + transitionWidth = 17.5], so that
    [featureDepth + 6.5 <= 8.75] holds, while the top rim itself has radius
    8.  At [u = 0], [v = pi/4] the pattern carves the rim to radius 6, inside
    the mount radius 6.5. *)
Theorem update_feature_depth_max_pierces_top_rim :
  let P := update_transition (custom_params 0 2 16 6 2 0 120) in
  let P' := update_feature_depth_max P in
  mountCylinderOuterDiameter P / 2 <= smallestMainCylinderRadius P
  /\ featureDepth P' = 2
  /\ featureDepth P' + mountCylinderOuterDiameter P' / 2
     <= smallestMainCylinderRadius P'
  /\ quadratic_profile 0 P' = 8
  /\ design_offset 0 (PI / 4) P' = -2
  /\ radial_distance (compute_outer_vertex 0 (PI / 4) P') = 6
  /\ radial_distance (compute_outer_vertex 0 (PI / 4) P')
     < mountCylinderOuterDiameter P' / 2.
Proof.
  intros P P'.
  assert (Hs : smallestMainCylinderRadius P = 8.75).
  { unfold smallestMainCylinderRadius, P, custom_params; cbn.
    unfold Rmin; repeat destruct Rle_dec; lra. }
  assert (Hd : featureDepth P' = 2).
  { unfold P'. cbn [featureDepth update_feature_depth_max set_featureDepth
                    set_featureDepthMax featureDepthMin featureDepthMax].
    rewrite Hs. unfold outerRadius.
    change (mountCylinderOuterDiameter P) with 13.
    change (featureDepth P) with 2. change (featureDepthMin P) with 0.
    change (featureDepthMax P) with 4.
    unfold clamp, Rmax, Rmin. repeat destruct Rle_dec; lra. }
  assert (Hp : quadratic_profile 0 P' = 8).
  { rewrite quadratic_profile_top. change (topDiameter P') with 16%Z. lra. }
  assert (Ho : design_offset 0 (PI / 4) P' = -2).
  { unfold design_offset. change (designMode P') with 2%Z.
    change (featureCount P') with 6%Z. cbn [Z.leb Z.eqb Z.compare Pos.eqb].
    rewrite Hd.
    replace (6 * (PI / 4 + PI * 0)) with (3 * (PI / 2)) by lra.
    rewrite sin_3PI2. lra. }
  assert (Hr : radial_distance (compute_outer_vertex 0 (PI / 4) P') = 6).
  { rewrite compute_outer_vertex_radius, Hp, Ho.
    replace (8 + -2) with 6 by lra. apply Rmax_right. lra. }
  change (smallestMainCylinderRadius P') with (smallestMainCylinderRadius P).
  change (mountCylinderOuterDiameter P') with 13.
  change (mountCylinderOuterDiameter P) with 13.
  rewrite Hs, Hd, Hr. repeat split; try assumption; lra.
Qed.

(** * Mesh builder *)

Section BuilderSteps.

Lemma range_length (n : Z) : length (range n) = Z.to_nat n.
Proof. unfold range. now rewrite length_map, length_seq. Qed.

Lemma range_nonpositive (n : Z) : (n <= 0)%Z -> range n = [].
Proof.
  intros H. unfold range. replace (Z.to_nat n) with 0%nat by lia. reflexivity.
Qed.

Lemma range_In (n i : Z) : In i (range n) -> (0 <= i < n)%Z.
Proof.
  unfold range. rewrite in_map_iff. intros (k & <- & Hk).
  apply in_seq in Hk. lia.
Qed.

(** Inside a loop over [range(n)] the divisor [float(n)] is not zero. *)
Lemma range_In_divisor (n i : Z) : In i (range n) -> IZR n <> 0.
Proof.
  intros H%range_In. apply not_0_IZR. lia.
Qed.

Lemma fdiv_nonzero (a b : R) (s : mesh) :
  b <> 0 -> fdiv a b s = Some (a / b, s).
Proof.
  intros H. unfold fdiv. destruct (Req_dec_T b 0); [contradiction|reflexivity].
Qed.

Lemma fdiv_zero (a : R) (s : mesh) : fdiv a 0 s = None.
Proof.
  unfold fdiv. destruct (Req_dec_T 0 0); [reflexivity|contradiction].
Qed.

Lemma valid_face_grow (n m : nat) (t : tri) :
  (n <= m)%nat -> valid_face n t -> valid_face m t.
Proof.
  destruct t as [[a b] c]. unfold valid_face, valid_index. lia.
Qed.

Lemma faces_grow (n m : nat) (fs : list tri) :
  (n <= m)%nat -> Forall (valid_face n) fs -> Forall (valid_face m) fs.
Proof.
  intros H. apply Forall_impl. intros t. now apply valid_face_grow.
Qed.

Lemma faces_in_bounds_empty : faces_in_bounds empty_mesh.
Proof. constructor. Qed.

Context {A : Type}.

(** A division by a non-zero divisor in front of a step. *)
Lemma appends_fdiv (lo kv kf : nat) (a b : R) (k : R -> M A) :
  b <> 0 -> appends lo kv kf (k (a / b)) ->
  appends lo kv kf (x <- fdiv a b ;; k x).
Proof.
  intros Hb Hk s Hs Hlo. unfold bind. rewrite fdiv_nonzero by assumption.
  now apply Hk.
Qed.

(** An angle sample in front of a step. *)
Lemma appends_v_at (lo kv kf : nat) (j n : Z) (k : R -> M A) :
  IZR n <> 0 -> appends lo kv kf (k (IZR j / IZR n * (2 * PI))) ->
  appends lo kv kf (x <- v_at j n ;; k x).
Proof.
  intros Hn Hk s Hs Hlo. unfold bind, v_at, bind, ret.
  rewrite fdiv_nonzero by assumption. now apply Hk.
Qed.

End BuilderSteps.

Section BuilderRegions.

(** Two steps in sequence. *)
Lemma appends_seq (lo kv1 kf1 kv2 kf2 : nat) (c1 c2 : M unit) :
  appends lo kv1 kf1 c1 -> appends lo kv2 kf2 c2 ->
  appends lo (kv1 + kv2) (kf1 + kf2) (c1 ;; c2).
Proof.
  intros H1 H2 s Hs Hlo.
  destruct (H1 s Hs Hlo) as (a1 & s1 & E1 & Hs1 & Hv1 & Hf1).
  destruct (H2 s1 Hs1 ltac:(lia)) as (a2 & s2 & E2 & Hs2 & Hv2 & Hf2).
  exists a2, s2. unfold bind. rewrite E1, E2. repeat split; auto; lia.
Qed.

(** A loop whose every iteration appends [kv] vertices and [kf] faces. *)
Lemma appends_for_each {X : Type} (lo kv kf : nat) (xs : list X)
      (body : X -> M unit) :
  (forall x, In x xs -> appends lo kv kf (body x)) ->
  appends lo (length xs * kv) (length xs * kf) (for_each xs body).
Proof.
  induction xs as [|x xs IH]; intros Hbody.
  - intros s Hs Hlo. exists tt, s. cbn. repeat split; auto; lia.
  - cbn [for_each length Nat.mul].
    apply appends_seq.
    + apply Hbody. now left.
    + apply IH. intros y Hy. apply Hbody. now right.
Qed.

(** Four fresh corners and the two triangles of a quad. *)
Lemma appends_quad (lo : nat) (q1 q2 q3 q4 : vec3) :
  appends lo 4 2
    (p1 <- add_vertex q1 ;;
     p2 <- add_vertex q2 ;;
     p3 <- add_vertex q3 ;;
     p4 <- add_vertex q4 ;;
     add_tri p1 p2 p3 ;;
     add_tri p1 p3 p4).
Proof.
  intros [vs fs] Hs Hlo. unfold faces_in_bounds in *. cbn in *.
  eexists; eexists. split; [reflexivity|]. cbn.
  repeat rewrite ?length_app, ?Forall_app; cbn [length].
  repeat split; try lia.
  - eapply faces_grow; [|eassumption]. lia.
  - repeat constructor; lia.
  - repeat constructor; lia.
Qed.

(** Two fresh rim samples and one fan triangle around a centre [c] that
    is already in the array; [flip] is the top cap's reversed winding. *)
Lemma appends_fan (lo : nat) (c : Z) (q1 q2 : vec3) (flip : bool) :
  valid_index lo c ->
  appends lo 2 1
    (p1 <- add_vertex q1 ;;
     p2 <- add_vertex q2 ;;
     if flip then add_tri c p2 p1 else add_tri c p1 p2).
Proof.
  intros Hc [vs fs] Hs Hlo. unfold faces_in_bounds, valid_index in *.
  cbn in *.
  destruct flip;
    (eexists; eexists; split; [reflexivity|]); cbn;
    repeat rewrite ?length_app, ?Forall_app; cbn [length];
    (repeat split; try lia;
     [ eapply faces_grow; [|eassumption]; lia
     | repeat constructor; lia ]).
Qed.

End BuilderRegions.

Section Regions.

Variables (P : Params) (D : Z) (lo : nat).

(** Number of iterations of [for _ in range(detail)]. *)
Let n : nat := length (range D).

(** A fresh vertex whose index the rest of the region keeps using. *)
Lemma appends_with_vertex (kv kf : nat) (q : vec3) (k : Z -> M unit) :
  (forall m, (lo <= m)%nat -> appends (S m) kv kf (k (Z.of_nat m))) ->
  appends lo (1 + kv) kf (c <- add_vertex q ;; k c).
Proof.
  intros Hk [vs fs] Hs Hlo. unfold faces_in_bounds in Hs. cbn in Hs, Hlo.
  unfold bind, add_vertex. cbn [vertices faces].
  replace (Z.of_nat (length (vs ++ [q])) - 1)%Z with (Z.of_nat (length vs))
    by (rewrite length_app; cbn; lia).
  destruct (Hk (length vs) Hlo (mkMesh (vs ++ [q]) fs))
    as (a & s' & E & Hs' & Hv & Hf).
  - unfold faces_in_bounds. cbn. eapply faces_grow; [|eassumption].
    rewrite length_app. lia.
  - cbn. rewrite length_app. cbn. lia.
  - exists a, s'. rewrite E. cbn in Hv, Hf. rewrite length_app in Hv.
    cbn in *. repeat split; auto; lia.
Qed.

Lemma outer_surface_appends :
  appends lo (n * (n * 4)) (n * (n * 2)) (outer_surface P D).
Proof.
  unfold outer_surface. apply appends_for_each. intros i Hi.
  pose proof (range_In_divisor _ _ Hi) as HD.
  do 2 (apply appends_fdiv; [exact HD|]).
  apply appends_for_each. intros j Hj.
  do 2 (apply appends_v_at; [exact HD|]).
  apply appends_quad.
Qed.

Lemma bottom_cap_appends :
  appends lo (1 + n * 2) (n * 1) (bottom_cap P D).
Proof.
  unfold bottom_cap. apply appends_with_vertex. intros m Hm.
  apply appends_for_each. intros j Hj.
  pose proof (range_In_divisor _ _ Hj) as HD.
  do 2 (apply appends_v_at; [exact HD|]).
  apply (appends_fan (S m) (Z.of_nat m) _ _ false).
  unfold valid_index. lia.
Qed.

Lemma transition_surface_appends :
  appends lo (n * (n * 4)) (n * (n * 2)) (transition_surface P D).
Proof.
  unfold transition_surface. cbv zeta. apply appends_for_each. intros i Hi.
  pose proof (range_In_divisor _ _ Hi) as HD.
  do 2 (apply appends_fdiv; [exact HD|]).
  apply appends_for_each. intros j Hj.
  do 2 (apply appends_v_at; [exact HD|]).
  apply appends_quad.
Qed.

Lemma mount_side_wall_appends :
  appends lo (n * 4) (n * 2) (mount_side_wall P D).
Proof.
  unfold mount_side_wall. apply appends_for_each. intros i Hi.
  pose proof (range_In_divisor _ _ Hi) as HD.
  do 2 (apply appends_v_at; [exact HD|]).
  apply appends_quad.
Qed.

Lemma top_cap_appends :
  appends lo (1 + n * 2) (n * 1) (top_cap P D).
Proof.
  unfold top_cap. apply appends_with_vertex. intros m Hm.
  apply appends_for_each. intros j Hj.
  pose proof (range_In_divisor _ _ Hj) as HD.
  do 2 (apply appends_v_at; [exact HD|]).
  apply (appends_fan (S m) (Z.of_nat m) _ _ true).
  unfold valid_index. lia.
Qed.

End Regions.

(** * The whole build *)

Section Build.

Variable P : Params.

(** Running a region from a well-indexed mesh. *)
Lemma appends_run (kv kf : nat) (c : M unit) (s : mesh) :
  appends 0 kv kf c -> faces_in_bounds s ->
  exists s',
    c s = Some (tt, s')
    /\ faces_in_bounds s'
    /\ vertex_count s' = (vertex_count s + Z.of_nat kv)%Z
    /\ face_count s' = (face_count s + Z.of_nat kf)%Z.
Proof.
  intros Hc Hs. destruct (Hc s Hs (Nat.le_0_l _)) as ([] & s' & E & H1 & H2 & H3).
  exists s'. unfold vertex_count, face_count. repeat split; auto; lia.
Qed.

(** The five regions in sequence never raise and keep every face index
    inside the vertex array. *)
Lemma build_regions_appends :
  let n := length (range (detail P)) in
  appends 0
    (n * (n * 4) + (1 + n * 2 + (n * (n * 4) + (n * 4 + (1 + n * 2)))))
    (n * (n * 2) + (n * 1 + (n * (n * 2) + (n * 2 + n * 1))))
    (build_regions P).
Proof.
  unfold build_regions.
  repeat apply appends_seq.
  - apply outer_surface_appends.
  - apply bottom_cap_appends.
  - apply transition_surface_appends.
  - apply mount_side_wall_appends.
  - apply top_cap_appends.
Qed.

(** With no iterations only the two fan centres are appended. *)
Lemma build_regions_degenerate :
  (detail P <= 0)%Z ->
  build_regions P empty_mesh
  = Some (tt, mkMesh [bottom_centre P; top_centre P] []).
Proof.
  intros H. unfold build_regions, outer_surface, bottom_cap,
    transition_surface, mount_side_wall, top_cap.
  rewrite (range_nonpositive _ H). reflexivity.
Qed.

Lemma Rmin_absorb (a b : R) : Rmin a (Rmin a b) = Rmin a b.
Proof. unfold Rmin. repeat destruct Rle_dec; lra. Qed.

Lemma clamp_idempotent (x lo hi : R) :
  clamp (clamp x lo hi) lo hi = clamp x lo hi.
Proof. unfold clamp, Rmax, Rmin. repeat destruct Rle_dec; lra. Qed.

(** Running the two update calls a second time changes nothing. *)
Lemma derive_idempotent : derive (derive P) = derive P.
Proof.
  unfold derive, update_feature_depth_max, update_transition,
    smallestMainCylinderRadius, outerRadius.
  cbn. rewrite Rmin_absorb, clamp_idempotent. reflexivity.
Qed.

(** Neither update touches an input field. *)
Lemma derive_same_inputs : same_inputs P (derive P).
Proof. unfold same_inputs. cbn. repeat split. Qed.

(** Totals over the five regions: 4*D^2 + 4*D triangles and
    8*D^2 + 8*D + 2 vertices for [D = max(detail, 0)]. *)
Lemma build_regions_totals :
  let D := Z.max (detail P) 0 in
  exists s,
    build_regions P empty_mesh = Some (tt, s)
    /\ face_count s = (4 * D * D + 4 * D)%Z
    /\ vertex_count s = (8 * D * D + 8 * D + 2)%Z.
Proof.
  intros D.
  destruct (appends_run _ _ _ empty_mesh build_regions_appends
              faces_in_bounds_empty) as (s & E & _ & V & F).
  exists s. split; [exact E|].
  rewrite range_length in V, F.
  change (vertex_count empty_mesh) with 0%Z in V.
  change (face_count empty_mesh) with 0%Z in F.
  assert (Hd : Z.of_nat (Z.to_nat (detail P)) = D) by (unfold D; lia).
  revert V F. rewrite !Nat2Z.inj_add, !Nat2Z.inj_mul, !Hd.
  intros. split; lia.
Qed.

(** The index layout at [detail = 1]: one quad per gridded region, one
    triangle per fan, the top fan wound the other way. *)
Example build_mesh_arrays_detail_1 :
  let Q := custom_params 0 2 30 6 1 0 1 in
  exists V,
    snd (build_mesh_arrays Q)
    = Some (V, [(0, 1, 2); (0, 2, 3); (4, 5, 6); (7, 8, 9); (7, 9, 10);
                (11, 12, 13); (11, 13, 14); (15, 17, 16)]%Z)
    /\ length V = 18%nat.
Proof.
  intros Q. eexists.
  unfold build_mesh_arrays, build_regions, outer_surface, bottom_cap,
    transition_surface, mount_side_wall, top_cap.
  change (detail (derive Q)) with 1%Z.
  change (range 1) with [0%Z].
  cbn [for_each snd].
  unfold v_at, bind.
  repeat first
    [ rewrite fdiv_nonzero by lra
    | progress cbn [ret add_vertex add_tri vertices faces empty_mesh app
                    length] ].
  split; reflexivity.
Qed.

End Build.

(** C3 (as amended): with [detail = D >= 1] the build runs region by region
    without raising and appends 2*D^2 triangles and 4*D^2 vertices for the
    outer shell, D triangles and 2*D + 1 vertices for the bottom cap, 2*D^2
    triangles for the transition skirt, 2*D triangles for the mount side wall
    and D triangles for the top cap. *)
Theorem build_mesh_arrays_region_counts (P : Params) (D : Z) :
  detail P = D -> (1 <= D)%Z ->
  exists s1 s2 s3 s4 s5 : mesh,
    outer_surface (derive P) D empty_mesh = Some (tt, s1)
    /\ bottom_cap (derive P) D s1 = Some (tt, s2)
    /\ transition_surface (derive P) D s2 = Some (tt, s3)
    /\ mount_side_wall (derive P) D s3 = Some (tt, s4)
    /\ top_cap (derive P) D s4 = Some (tt, s5)
    /\ build_mesh_arrays P = (derive P, Some (vertices s5, faces s5))
    /\ face_count s1 = (2 * D * D)%Z
    /\ vertex_count s1 = (4 * D * D)%Z
    /\ (face_count s2 - face_count s1 = D)%Z
    /\ (vertex_count s2 - vertex_count s1 = 2 * D + 1)%Z
    /\ (face_count s3 - face_count s2 = 2 * D * D)%Z
    /\ (face_count s4 - face_count s3 = 2 * D)%Z
    /\ (face_count s5 - face_count s4 = D)%Z.
Proof.
  intros HD Hpos.
  pose proof (range_length D) as Hn.
  destruct (appends_run _ _ _ empty_mesh
              (outer_surface_appends (derive P) D 0) faces_in_bounds_empty)
    as (s1 & E1 & W1 & V1 & F1).
  destruct (appends_run _ _ _ s1 (bottom_cap_appends (derive P) D 0) W1)
    as (s2 & E2 & W2 & V2 & F2).
  destruct (appends_run _ _ _ s2 (transition_surface_appends (derive P) D 0) W2)
    as (s3 & E3 & W3 & V3 & F3).
  destruct (appends_run _ _ _ s3 (mount_side_wall_appends (derive P) D 0) W3)
    as (s4 & E4 & W4 & V4 & F4).
  destruct (appends_run _ _ _ s4 (top_cap_appends (derive P) D 0) W4)
    as (s5 & E5 & W5 & V5 & F5).
  exists s1, s2, s3, s4, s5.
  repeat (split; [assumption|]).
  split.
  { unfold build_mesh_arrays, build_regions, bind.
    change (detail (derive P)) with (detail P). rewrite HD.
    now rewrite E1, E2, E3, E4, E5. }
  rewrite Hn in *.
  change (vertex_count empty_mesh) with 0%Z in V1.
  change (face_count empty_mesh) with 0%Z in F1.
  assert (Hd : Z.of_nat (Z.to_nat D) = D) by lia.
  revert V1 F1 V2 F2 V3 F3 V4 F4 V5 F5.
  rewrite !Nat2Z.inj_add, !Nat2Z.inj_mul, !Hd.
  intros. repeat split; lia.
Qed.

(** Witness for C3: the defaults at [detail = 2]. *)
Lemma build_mesh_arrays_region_counts_witness :
  let P := custom_params 0 2 30 6 1 0 2 in
  exists s1 s2 s3 s4 s5 : mesh,
    outer_surface (derive P) 2 empty_mesh = Some (tt, s1)
    /\ bottom_cap (derive P) 2 s1 = Some (tt, s2)
    /\ transition_surface (derive P) 2 s2 = Some (tt, s3)
    /\ mount_side_wall (derive P) 2 s3 = Some (tt, s4)
    /\ top_cap (derive P) 2 s4 = Some (tt, s5)
    /\ build_mesh_arrays P = (derive P, Some (vertices s5, faces s5))
    /\ face_count s1 = (2 * 2 * 2)%Z
    /\ vertex_count s1 = (4 * 2 * 2)%Z
    /\ (face_count s2 - face_count s1 = 2)%Z
    /\ (vertex_count s2 - vertex_count s1 = 2 * 2 + 1)%Z
    /\ (face_count s3 - face_count s2 = 2 * 2 * 2)%Z
    /\ (face_count s4 - face_count s3 = 2 * 2)%Z
    /\ (face_count s5 - face_count s4 = 2)%Z.
Proof.
  apply (build_mesh_arrays_region_counts (custom_params 0 2 30 6 1 0 2) 2).
  - reflexivity.
  - lia.
Defined.

(** C3 (as stated) fails on the bottom cap: at [detail = 1] it appends three
    vertices (the centre and two rim samples), not [1 + 1]. *)
Lemma bottom_cap_vertex_count_counterexample :
  let P := custom_params 0 2 30 6 1 0 1 in
  exists s1 s2 : mesh,
    outer_surface (derive P) (detail P) empty_mesh = Some (tt, s1)
    /\ bottom_cap (derive P) (detail P) s1 = Some (tt, s2)
    /\ (vertex_count s2 - vertex_count s1 = 3)%Z
    /\ (vertex_count s2 - vertex_count s1 <> detail P + 1)%Z.
Proof.
  intros P. change (detail P) with 1%Z.
  destruct (appends_run _ _ _ empty_mesh
              (outer_surface_appends (derive P) 1 0) faces_in_bounds_empty)
    as (s1 & E1 & W1 & V1 & F1).
  destruct (appends_run _ _ _ s1 (bottom_cap_appends (derive P) 1 0) W1)
    as (s2 & E2 & W2 & V2 & F2).
  exists s1, s2. rewrite range_length in V2.
  change (Z.of_nat (1 + Z.to_nat 1 * 2)) with 3%Z in V2.
  repeat (split; [assumption|]). split; lia.
Qed.

(** With [detail <= 0] the build does not raise and returns an empty
    triangle sequence together with exactly two vertices, the bottom-fan
    centre and the top-fan centre. *)
Lemma build_mesh_arrays_degenerate (P : Params) :
  (detail P <= 0)%Z ->
  snd (build_mesh_arrays P)
  = Some ([bottom_centre (derive P); top_centre (derive P)], []).
Proof.
  intros H. unfold build_mesh_arrays. cbn [snd].
  now rewrite (build_regions_degenerate (derive P) H).
Qed.

(** The defaults at [detail = 0]. *)
Lemma build_mesh_arrays_degenerate_witness :
  let P := custom_params 0 2 30 6 1 0 0 in
  snd (build_mesh_arrays P)
  = Some ([bottom_centre (derive P); top_centre (derive P)], []).
Proof.
  apply (build_mesh_arrays_degenerate (custom_params 0 2 30 6 1 0 0)).
  cbn. lia.
Defined.

(** C4: the code at the failing input.  With [detail = 0] on otherwise
    default parameters the build returns normally with no triangle, but the
    vertex sequence is not empty: it holds the bottom-fan centre
    [(0, -40, 0)] and the top-fan centre, which are appended outside the
    loops. *)
Theorem build_mesh_arrays_detail_0_vertices :
  let P := custom_params 0 2 30 6 1 0 0 in
  exists V F,
    snd (build_mesh_arrays P) = Some (V, F)
    /\ V = [mkVec3 0 (-40) 0; top_centre (derive P)]
    /\ length V = 2%nat /\ V <> [] /\ F = [].
Proof.
  intros P.
  exists [bottom_centre (derive P); top_centre (derive P)], [].
  split.
  - unfold build_mesh_arrays. cbn [snd].
    rewrite build_regions_degenerate by (cbn; lia). reflexivity.
  - split.
    + unfold bottom_centre. cbn [cylinderHeight derive P custom_params].
      do 2 f_equal. change (cylinderHeight (derive P)) with 80%Z.
      rewrite opp_IZR. lra.
    + repeat split. discriminate.
Qed.

(** C8: [build_mesh_arrays] leaves [P] as [update_transition] followed by
    [update_feature_depth_max] leave it and builds from that state, so the
    arrays returned for [P] and for a copy of [P] on which the two steps
    were already run in that order are the same; running the two steps
    again changes nothing. *)
Theorem build_mesh_arrays_derives_first (P : Params) :
  let Q := update_feature_depth_max (update_transition P) in
  fst (build_mesh_arrays P) = Q
  /\ update_feature_depth_max (update_transition Q) = Q
  /\ snd (build_mesh_arrays Q) = snd (build_mesh_arrays P)
  /\ build_mesh_arrays Q = build_mesh_arrays P.
Proof.
  intros Q. fold (derive P) in Q. fold (derive Q). unfold Q.
  unfold build_mesh_arrays. cbn [fst snd].
  rewrite derive_idempotent. repeat split.
Qed.

(** C9: for every parameter value, any [detail] included, the build returns
    normally and each of the three indices of each returned triangle is at
    least 0 and below the number of returned vertices. *)
Theorem build_mesh_arrays_faces_in_bounds (P : Params) :
  exists (V : list vec3) (F : list tri),
    snd (build_mesh_arrays P) = Some (V, F)
    /\ Forall (valid_face (length V)) F.
Proof.
  destruct (appends_run _ _ _ empty_mesh
              (build_regions_appends (derive P)) faces_in_bounds_empty)
    as (s & E & W & _).
  exists (vertices s), (faces s). unfold build_mesh_arrays. cbn [snd].
  rewrite E. split; [reflexivity | exact W].
Qed.

(** C10: the state in which [build_mesh_arrays] leaves [P] differs from the
    caller's at most in [transitionWidth], [transitionHeight],
    [featureDepthMax] and [featureDepth]; every other field is unchanged. *)
Theorem build_mesh_arrays_frame (P : Params) :
  same_inputs P (fst (build_mesh_arrays P)).
Proof.
  unfold build_mesh_arrays. cbn [fst]. apply derive_same_inputs.
Qed.

(** * Further properties of the helpers and the parameter model *)

(** [lerp] hits both ends and, for [t] in [[0, 1]], stays between them. *)
Theorem lerp_between (a b t : R) :
  0 <= t <= 1 ->
  lerp a b 0 = a /\ lerp a b 1 = b /\ Rmin a b <= lerp a b t <= Rmax a b.
Proof.
  intros Ht. unfold lerp, Rmin, Rmax.
  destruct (Rle_dec a b); repeat split; nra.
Qed.

Lemma lerp_between_witness :
  lerp 2 6 0 = 2 /\ lerp 2 6 1 = 6
  /\ Rmin 2 6 <= lerp 2 6 (1 / 4) <= Rmax 2 6.
Proof. apply (lerp_between 2 6 (1 / 4)). lra. Defined.

(** With ordered bounds [clamp] lands in [[lo, hi]] and moves exactly the
    values outside it. *)
Theorem clamp_in_range (x lo hi : R) :
  lo <= hi ->
  lo <= clamp x lo hi <= hi /\ (clamp x lo hi = x <-> lo <= x <= hi).
Proof.
  intros H. unfold clamp, Rmax, Rmin.
  repeat destruct Rle_dec; repeat split; intros; lra.
Qed.

Lemma clamp_in_range_witness :
  0 <= clamp 7 0 4 <= 4 /\ (clamp 7 0 4 = 7 <-> 0 <= 7 <= 4).
Proof. apply (clamp_in_range 7 0 4). lra. Defined.

(** With crossed bounds [clamp] returns the lower one, whatever [x] is. *)
Theorem clamp_crossed_bounds (x lo hi : R) :
  hi < lo -> clamp x lo hi = lo.
Proof.
  intros H. unfold clamp, Rmax, Rmin. repeat destruct Rle_dec; lra.
Qed.

Lemma clamp_crossed_bounds_witness : clamp 2 5 1 = 5.
Proof. apply (clamp_crossed_bounds 2 5 1). lra. Defined.

(** [update_feature_depth_max] only ever lowers [featureDepthMax]: the new
    value is at most the old one and at most the clearance floored at 0,
    and it does not drop below [min(0, old)]. *)
Theorem featureDepthMax_never_grows (P : Params) :
  let P' := update_feature_depth_max P in
  featureDepthMax P' <= featureDepthMax P
  /\ featureDepthMax P'
     <= Rmax 0 (smallestMainCylinderRadius P - mountCylinderOuterDiameter P / 2)
  /\ Rmin 0 (featureDepthMax P) <= featureDepthMax P'.
Proof.
  cbn. unfold outerRadius, Rmax, Rmin. repeat destruct Rle_dec; lra.
Qed.

(** When the lower slider bound does not exceed the new maximum, the depth
    ends inside [[featureDepthMin, featureDepthMax]] and is left alone
    exactly when it was already there. *)
Theorem featureDepth_in_slider_range (P : Params) :
  let P' := update_feature_depth_max P in
  featureDepthMin P <= featureDepthMax P' ->
  featureDepthMin P' <= featureDepth P' <= featureDepthMax P'
  /\ (featureDepth P' = featureDepth P
      <-> featureDepthMin P <= featureDepth P <= featureDepthMax P').
Proof.
  cbn. unfold clamp, outerRadius.
  set (m := Rmin _ (featureDepthMax P)).
  unfold Rmax, Rmin. repeat destruct Rle_dec; repeat split; intros; lra.
Qed.

Lemma featureDepth_in_slider_range_witness :
  let P' := update_feature_depth_max default_params in
  featureDepthMin P' <= featureDepth P' <= featureDepthMax P'
  /\ (featureDepth P' = featureDepth default_params
      <-> featureDepthMin default_params <= featureDepth default_params
          <= featureDepthMax P').
Proof.
  apply (featureDepth_in_slider_range default_params).
  cbn. unfold smallestMainCylinderRadius, outerRadius, default_params; cbn.
  unfold Rmax, Rmin; repeat destruct Rle_dec; lra.
Defined.

(** With a zero depth every pattern vanishes. *)
Lemma design_offset_zero_depth (u v : R) (P : Params) :
  featureDepth P = 0 -> design_offset u v P = 0.
Proof.
  intros H. unfold design_offset. rewrite H.
  repeat match goal with
    | |- context [if ?b then _ else _] => destruct b
    end; ring.
Qed.

(** When the mount is at least as wide as the narrowest main radius and
    [featureDepthMin] is 0, the update drives [featureDepth] to 0 and with
    it every pattern offset. *)
Theorem pattern_off_without_clearance (u v : R) (P : Params) :
  smallestMainCylinderRadius P <= mountCylinderOuterDiameter P / 2 ->
  featureDepthMin P = 0 ->
  let P' := update_feature_depth_max P in
  featureDepthMax P' <= 0 /\ featureDepth P' = 0 /\ design_offset u v P' = 0.
Proof.
  intros Hc Hmin P'.
  assert (Hd : featureDepth P' = 0).
  { unfold P'. cbn. unfold clamp, outerRadius. rewrite Hmin.
    unfold Rmax, Rmin. repeat destruct Rle_dec; lra. }
  split; [|split; [exact Hd | now apply design_offset_zero_depth]].
  unfold P'. cbn. unfold outerRadius, Rmax, Rmin.
  repeat destruct Rle_dec; lra.
Qed.

Lemma pattern_off_without_clearance_witness :
  let P' := update_feature_depth_max (custom_params 0 2 4 6 1 0 120) in
  featureDepthMax P' <= 0 /\ featureDepth P' = 0
  /\ design_offset (1 / 2) 1 P' = 0.
Proof.
  apply (pattern_off_without_clearance (1 / 2) 1
           (custom_params 0 2 4 6 1 0 120)).
  - unfold smallestMainCylinderRadius, custom_params; cbn.
    unfold Rmin; repeat destruct Rle_dec; lra.
  - reflexivity.
Defined.

(** The tangent of an overhang angle of 0 up to 89 degrees is not
    negative, so neither is the height [update_transition] computes. *)
Lemma update_transition_height_nonneg (P : Params) :
  (0 <= overhangAngle P < 90)%Z ->
  0 <= transitionHeight (update_transition P).
Proof.
  intros [Hlo Hhi].
  assert (Ht : 0 <= tan (radians (IZR (overhangAngle P)))).
  { unfold radians. apply IZR_le in Hlo. apply IZR_lt in Hhi.
    pose proof PI_RGT_0.
    destruct (Req_dec (IZR (overhangAngle P)) 0) as [E|E].
    - rewrite E, Rmult_0_l, tan_0. lra.
    - apply Rlt_le, tan_gt_0; nra. }
  cbn. apply Rmult_le_pos; [apply Rmax_l | exact Ht].
Qed.

(** For an overhang angle of 0 up to 89 degrees the transition never points
    down: [transitionHeight >= 0], so the mount cylinder starts at or above
    the shade's top rim. *)
Theorem transitionHeight_nonneg (P : Params) :
  (0 <= overhangAngle P < 90)%Z ->
  let P' := update_transition P in
  0 <= transitionHeight P' /\ IZR (cylinderHeight P') / 2 <= cylBottomY P'.
Proof.
  intros H P'. pose proof (update_transition_height_nonneg P H) as Hh.
  fold P' in Hh. split; [exact Hh|]. unfold cylBottomY. lra.
Qed.

Lemma transitionHeight_nonneg_witness :
  let P' := update_transition default_params in
  0 <= transitionHeight P' /\ IZR (cylinderHeight P') / 2 <= cylBottomY P'.
Proof. apply (transitionHeight_nonneg default_params). cbn. lia. Defined.

(** * Further properties of the profile and the pattern *)

(** Smallest and largest of the three control radii. *)
Lemma Rmin3_le (a b c : R) :
  Rmin (Rmin a b) c <= a /\ Rmin (Rmin a b) c <= b /\ Rmin (Rmin a b) c <= c.
Proof. unfold Rmin. repeat destruct Rle_dec; lra. Qed.

Lemma Rmax3_ge (a b c : R) :
  a <= Rmax (Rmax a b) c /\ b <= Rmax (Rmax a b) c /\ c <= Rmax (Rmax a b) c.
Proof. unfold Rmax. repeat destruct Rle_dec; lra. Qed.

(** Bezier and piecewise-linear profiles stay within the control radii. *)
Lemma quadratic_profile_hull (u : R) (P : Params) :
  interpolation P <> 1%Z -> 0 <= u <= 1 ->
  Rmin (Rmin (IZR (topDiameter P)) (IZR (middleDiameter P)))
       (IZR (bottomDiameter P)) / 2
  <= quadratic_profile u P
  <= Rmax (Rmax (IZR (topDiameter P)) (IZR (middleDiameter P)))
          (IZR (bottomDiameter P)) / 2.
Proof.
  intros Hi Hu.
  destruct (Rmin3_le (IZR (topDiameter P)) (IZR (middleDiameter P))
              (IZR (bottomDiameter P))) as (L1 & L2 & L3).
  destruct (Rmax3_ge (IZR (topDiameter P)) (IZR (middleDiameter P))
              (IZR (bottomDiameter P))) as (U1 & U2 & U3).
  set (lo := Rmin _ _) in *. set (hi := Rmax _ _) in *.
  set (a := IZR (topDiameter P)) in *. set (m := IZR (middleDiameter P)) in *.
  set (b := IZR (bottomDiameter P)) in *.
  unfold quadratic_profile. fold a m b.
  destruct (Z.eqb_spec (interpolation P) 1); [contradiction|].
  destruct (interpolation P =? 2)%Z.
  - unfold lerp. destruct (Rle_dec u 0.5).
    + assert (0 <= u / 0.5 <= 1) by lra.
      set (t := u / 0.5) in *. split; nra.
    + assert (0 <= (u - 0.5) / 0.5 <= 1) by lra.
      set (t := (u - 0.5) / 0.5) in *. split; nra.
  - assert (H1 : 0 <= (1 - u) * (1 - u)) by nra.
    assert (H2 : 0 <= 2 * (1 - u) * u) by nra.
    assert (H3 : 0 <= u * u) by nra.
    assert (Hs : (1 - u) * (1 - u) + 2 * (1 - u) * u + u * u = 1) by ring.
    set (w1 := (1 - u) * (1 - u)) in *. set (w2 := 2 * (1 - u) * u) in *.
    set (w3 := u * u) in *.
    split; nra.
Qed.

(** For [u] in [[0, 1]] the Bezier and the piecewise-linear profile never
    leave the range spanned by the three control radii. *)
Theorem quadratic_profile_within_controls (u : R) (P : Params) :
  interpolation P <> 1%Z -> 0 <= u <= 1 ->
  Rmin (Rmin (IZR (topDiameter P)) (IZR (middleDiameter P)))
       (IZR (bottomDiameter P)) / 2
  <= quadratic_profile u P
  <= Rmax (Rmax (IZR (topDiameter P)) (IZR (middleDiameter P)))
          (IZR (bottomDiameter P)) / 2.
Proof. apply quadratic_profile_hull. Qed.

Lemma quadratic_profile_within_controls_witness :
  Rmin (Rmin (IZR (topDiameter default_params))
             (IZR (middleDiameter default_params)))
       (IZR (bottomDiameter default_params)) / 2
  <= quadratic_profile (1 / 3) default_params
  <= Rmax (Rmax (IZR (topDiameter default_params))
                (IZR (middleDiameter default_params)))
          (IZR (bottomDiameter default_params)) / 2.
Proof.
  apply (quadratic_profile_within_controls (1 / 3) default_params).
  - cbn. lia.
  - lra.
Defined.

(** At mid height the Lagrange and the piecewise-linear profile pass through
    the middle radius; the Bezier profile gives
    [(top + 2*middle + bottom) / 8] instead. *)
Theorem quadratic_profile_middle (P : Params) :
  quadratic_profile 0.5 P
  = if ((interpolation P =? 1) || (interpolation P =? 2))%Z%bool
    then IZR (middleDiameter P) / 2
    else (IZR (topDiameter P) + 2 * IZR (middleDiameter P)
          + IZR (bottomDiameter P)) / 8.
Proof.
  unfold quadratic_profile, lerp.
  destruct (interpolation P =? 1)%Z; cbn [orb]; [lra|].
  destruct (interpolation P =? 2)%Z; [|lra].
  destruct (Rle_dec 0.5 0.5); lra.
Qed.

Section PatternRange.

Variables (u v : R) (P : Params).

(** Every mode but the crosshatch (4) is within [|featureDepth|]. *)
Lemma design_offset_abs_le :
  designMode P <> 4%Z ->
  Rabs (design_offset u v P) <= 1 * Rabs (featureDepth P).
Proof.
  intros Hm.
  assert (H0 : Rabs 0 <= 1 * Rabs (featureDepth P))
    by (rewrite Rabs_R0; pose proof (Rabs_pos (featureDepth P)); lra).
  unfold design_offset.
  destruct (designMode P <=? 0)%Z; [exact H0|].
  set (fd := featureDepth P). set (fc := IZR (featureCount P)). cbv zeta.
  destruct (Z.eqb_spec (designMode P) 4) as [E|_]; [contradiction|].
  repeat match goal with
    | |- context [if ?b then _ else _] => destruct b
    end; try exact H0.
  - rewrite Rmult_assoc. apply Rabs_scale_le.
    apply Rabs_prod_le_1; [apply Rabs_sin_le_1 | apply Rabs_cos_le_1].
  - apply Rabs_scale_le, Rabs_sin_le_1.
  - apply Rabs_scale_le. rewrite Rabs_Rabsolu. apply Rabs_sin_le_1.
  - rewrite Rmult_assoc. apply Rabs_scale_le.
    apply Rabs_prod_le_1; apply Rabs_sin_le_1.
  - apply Rabs_scale_le, Rabs_sin_le_1.
  - apply Rabs_scale_le.
    pose proof (Rabs_sin_le_1 (fc * PI * u)). pose proof (Rabs_sin_le_1 (fc * v)).
    pose proof (Rabs_pos (sin (fc * PI * u))). pose proof (Rabs_pos (sin (fc * v))).
    apply Rabs_le. lra.
  - rewrite Rmult_assoc. apply Rabs_scale_le.
    pose proof (SIN_bound (fc * v)).
    pose proof (SIN_bound ((fc + 1) * v + 2 * PI * u)).
    apply Rabs_le. lra.
  - rewrite Rmult_assoc. apply Rabs_scale_le.
    pose proof (COS_bound (fc * 2 * PI * u)). apply Rabs_le. lra.
  - rewrite Rmult_assoc. apply Rabs_scale_le.
    pose proof (triangle_wave_le_1 (fc * u)).
    pose proof (Rabs_pos (2 * (fc * u - IZR (floor (fc * u + 0.5))))).
    apply Rabs_le. lra.
  - rewrite Rmult_assoc. apply Rabs_scale_le.
    pose proof (Rabs_sin_le_1 (fc * PI * u + v)).
    pose proof (Rabs_pos (sin (fc * PI * u + v))).
    apply Rabs_le. lra.
  - rewrite Rmult_assoc. apply Rabs_scale_le.
    pose proof (COS_bound (fc * 2 * PI * u + 2 * v)).
    pose proof (SIN_bound (fc * v + u * 2.7)).
    apply Rabs_le. lra.
Qed.

(** The crosshatch only pushes outwards, by at most twice the depth. *)
Lemma design_offset_crosshatch :
  designMode P = 4%Z -> 0 <= featureDepth P ->
  0 <= design_offset u v P <= 2 * featureDepth P.
Proof.
  intros Hm Hfd. unfold design_offset. rewrite Hm. cbn.
  pose proof (Rabs_sin_le_1 (IZR (featureCount P) * PI * u)).
  pose proof (Rabs_sin_le_1 (IZR (featureCount P) * v)).
  pose proof (Rabs_pos (sin (IZR (featureCount P) * PI * u))).
  pose proof (Rabs_pos (sin (IZR (featureCount P) * v))).
  split; nra.
Qed.

(** For a non-negative depth the pattern carves inwards by at most the
    depth and pushes outwards by at most twice the depth. *)
Lemma design_offset_range :
  0 <= featureDepth P ->
  - featureDepth P <= design_offset u v P <= 2 * featureDepth P.
Proof.
  intros Hfd. destruct (Z.eq_dec (designMode P) 4) as [E|E].
  - pose proof (design_offset_crosshatch E Hfd). lra.
  - pose proof (design_offset_abs_le E) as H.
    rewrite (Rabs_right (featureDepth P)) in H by lra.
    revert H. unfold Rabs. destruct Rcase_abs; lra.
Qed.

(** The outer vertex sits at height [h/2 - u*h]. *)
Lemma compute_outer_vertex_height :
  vy (compute_outer_vertex u v P)
  = IZR (cylinderHeight P) / 2 - u * IZR (cylinderHeight P).
Proof. cbn. unfold lerp. rewrite opp_IZR. lra. Qed.

End PatternRange.

(** Every design mode other than 4 keeps the displacement within
    [|featureDepth|]. *)
Theorem design_offset_within_depth (u v : R) (P : Params) :
  designMode P <> 4%Z ->
  Rabs (design_offset u v P) <= Rabs (featureDepth P).
Proof.
  intros H. pose proof (design_offset_abs_le u v P H). lra.
Qed.

Lemma design_offset_within_depth_witness :
  Rabs (design_offset (1 / 3) 2 default_params)
  <= Rabs (featureDepth default_params).
Proof.
  apply (design_offset_within_depth (1 / 3) 2 default_params). cbn. lia.
Defined.

(** For a non-negative [featureDepth], in every mode the pattern moves the
    surface inwards by at most [featureDepth] and outwards by at most
    [2 * featureDepth]. *)
Theorem design_offset_inward_outward (u v : R) (P : Params) :
  0 <= featureDepth P ->
  - featureDepth P <= design_offset u v P <= 2 * featureDepth P.
Proof. apply design_offset_range. Qed.

Lemma design_offset_inward_outward_witness :
  - featureDepth default_params
  <= design_offset (1 / 3) 2 default_params
  <= 2 * featureDepth default_params.
Proof.
  apply (design_offset_inward_outward (1 / 3) 2 default_params). cbn. lra.
Defined.

(** * Further properties of the outer vertex *)

(** In every mode the outer vertex lies at distance
    [max(0, profile + pattern)] from the axis, at height [h/2 - u*h]. *)
Theorem compute_outer_vertex_cylindrical (u v : R) (P : Params) :
  radial_distance (compute_outer_vertex u v P)
  = Rmax 0 (quadratic_profile u P + design_offset u v P)
  /\ vy (compute_outer_vertex u v P)
     = IZR (cylinderHeight P) / 2 - u * IZR (cylinderHeight P).
Proof.
  split; [apply compute_outer_vertex_radius | apply compute_outer_vertex_height].
Qed.

(** With a Bezier or piecewise-linear profile, [u] in [[0, 1]] and a
    non-negative depth, no outer vertex comes closer to the axis than the
    smallest control radius less [featureDepth]. *)
Theorem compute_outer_vertex_min_radius (u v : R) (P : Params) :
  interpolation P <> 1%Z -> 0 <= u <= 1 -> 0 <= featureDepth P ->
  Rmin (Rmin (IZR (topDiameter P)) (IZR (middleDiameter P)))
       (IZR (bottomDiameter P)) / 2 - featureDepth P
  <= radial_distance (compute_outer_vertex u v P).
Proof.
  intros Hi Hu Hfd. rewrite compute_outer_vertex_radius.
  pose proof (quadratic_profile_hull u P Hi Hu) as [Hp _].
  pose proof (design_offset_range u v P Hfd) as [Ho _].
  eapply Rle_trans; [|apply Rmax_r]. lra.
Qed.

Lemma compute_outer_vertex_min_radius_witness :
  Rmin (Rmin (IZR (topDiameter default_params))
             (IZR (middleDiameter default_params)))
       (IZR (bottomDiameter default_params)) / 2
  - featureDepth default_params
  <= radial_distance (compute_outer_vertex (1 / 3) 2 default_params).
Proof.
  apply (compute_outer_vertex_min_radius (1 / 3) 2 default_params).
  - cbn. lia.
  - lra.
  - cbn. lra.
Defined.

(** * The viewer's camera-relative light *)

Section Light.

Variable cam : camera.

(** The vector from the camera back to its centre has length
    [|distance|]. *)
Lemma camera_offset_norm :
  norm (mkVec3 (vx (center cam) - vx (camera_position cam))
               (vy (center cam) - vy (camera_position cam))
               (vz (center cam) - vz (camera_position cam)))
  = Rabs (distance cam).
Proof.
  unfold norm, camera_position. cbn.
  set (r := distance cam). set (e := radians (elevation cam)).
  set (a := radians (azimuth cam)).
  rewrite <- sqrt_Rsqr_abs. f_equal. unfold Rsqr.
  transitivity (r * r * ((Rsqr (sin e) + Rsqr (cos e))
                         - Rsqr (cos e) * (1 - (Rsqr (sin a) + Rsqr (cos a))))).
  - unfold Rsqr. ring.
  - rewrite !sin2_cos2. ring.
Qed.

End Light.

(** [_camera_position] puts the camera on the sphere of radius
    [|distance|] around the camera centre, for any elevation and azimuth. *)
Theorem camera_position_on_sphere (cam : camera) :
  let p := camera_position cam in
  let c := center cam in
  sqrt ((vx p - vx c) * (vx p - vx c) + (vy p - vy c) * (vy p - vy c)
        + (vz p - vz c) * (vz p - vz c))
  = Rabs (distance cam).
Proof.
  intros p c. rewrite <- (camera_offset_norm cam). unfold norm. cbn [vx vy vz].
  f_equal. fold p c. ring.
Qed.

(** [update_light] returns early exactly when [|distance| < 1e-9];
    otherwise the direction it sets is a unit vector. *)
Theorem light_direction_unit (cam : camera) :
  match light_direction cam with
  | None => Rabs (distance cam) < 1 / 10 ^ 9
  | Some d => 1 / 10 ^ 9 <= Rabs (distance cam) /\ norm d = 1
  end.
Proof.
  unfold light_direction. cbv zeta. rewrite (camera_offset_norm cam).
  destruct (Rlt_dec (Rabs (distance cam)) (1 / 10 ^ 9)) as [H|H]; [exact H|].
  apply Rnot_lt_le in H. split; [exact H|].
  assert (Hpos : 0 < 1 / 10 ^ 9)
    by (apply Rdiv_lt_0_compat; [lra | apply pow_lt; lra]).
  pose proof (camera_offset_norm cam) as Hn. unfold norm in Hn. cbn [vx vy vz] in Hn.
  set (dx := vx (center cam) - vx (camera_position cam)) in *.
  set (dy := vy (center cam) - vy (camera_position cam)) in *.
  set (dz := vz (center cam) - vz (camera_position cam)) in *.
  set (n := Rabs (distance cam)) in *.
  assert (Hsq : dx * dx + dy * dy + dz * dz = n * n).
  { rewrite <- Hn. symmetry. apply sqrt_sqrt. nra. }
  unfold norm. cbn [vx vy vz].
  replace (dx / n * (dx / n) + dy / n * (dy / n) + dz / n * (dz / n))
    with ((dx * dx + dy * dy + dz * dz) / (n * n)) by (field; lra).
  rewrite Hsq. replace (n * n / (n * n)) with 1 by (field; lra).
  apply sqrt_1.
Qed.

(** * The builder's output in closed form *)

Section Writes.

Lemma writes_fdiv {A : Type} (a b : R) (k : R -> M A) (r : A)
      (vs : list vec3) (fs : Z -> list tri) :
  b <> 0 -> writes (k (a / b)) r vs fs -> writes (x <- fdiv a b ;; k x) r vs fs.
Proof.
  intros Hb Hk s. unfold bind. rewrite fdiv_nonzero by assumption. apply Hk.
Qed.

Lemma writes_v_at {A : Type} (j n : Z) (k : R -> M A) (r : A)
      (vs : list vec3) (fs : Z -> list tri) :
  IZR n <> 0 -> writes (k (angle j n)) r vs fs ->
  writes (x <- v_at j n ;; k x) r vs fs.
Proof.
  intros Hn Hk s. unfold bind, v_at, bind, ret.
  rewrite fdiv_nonzero by assumption. apply Hk.
Qed.

Lemma writes_seq (c1 c2 : M unit) (vs1 vs2 : list vec3)
      (fs1 fs2 : Z -> list tri) :
  writes c1 tt vs1 fs1 -> writes c2 tt vs2 fs2 ->
  writes (c1 ;; c2) tt (vs1 ++ vs2)
    (fun b => fs1 b ++ fs2 (b + Z.of_nat (length vs1))%Z).
Proof.
  intros H1 H2 s. unfold bind. rewrite H1, H2. cbn [vertices faces].
  rewrite length_app, Nat2Z.inj_add, <- !app_assoc. reflexivity.
Qed.

Lemma writes_ext {A : Type} (c : M A) (r : A) (vs vs' : list vec3)
      (fs fs' : Z -> list tri) :
  vs = vs' -> (forall b, (0 <= b)%Z -> fs b = fs' b) ->
  writes c r vs fs -> writes c r vs' fs'.
Proof.
  intros -> Hf H s. rewrite H, Hf by lia. reflexivity.
Qed.

(** A loop over consecutive integers whose every iteration appends [k]
    vertices. *)
Lemma writes_for_each_seq (k : Z) (body : Z -> M unit)
      (vsx : Z -> list vec3) (fsx : Z -> Z -> list tri) (n a : nat) :
  (forall i, (Z.of_nat a <= i < Z.of_nat (a + n))%Z ->
     writes (body i) tt (vsx i) (fsx i)
     /\ Z.of_nat (length (vsx i)) = k) ->
  writes (for_each (map Z.of_nat (seq a n)) body) tt
    (flat_map vsx (map Z.of_nat (seq a n)))
    (fun b => flat_map (fun i => fsx i (b + k * (i - Z.of_nat a))%Z)
                (map Z.of_nat (seq a n))).
Proof.
  revert a. induction n as [|n IH]; intros a Hbody.
  - intros [vs fs]. cbn. now rewrite !app_nil_r.
  - cbn [seq map for_each flat_map].
    assert (Ha : (Z.of_nat a <= Z.of_nat a < Z.of_nat (a + S n))%Z) by lia.
    destruct (Hbody (Z.of_nat a) Ha) as [Hw Hk].
    eapply writes_ext; [reflexivity| |apply writes_seq; [exact Hw|]].
    2:{ apply (IH (S a)). intros i Hi. apply Hbody. lia. }
    intros b _. cbn beta. f_equal.
    + f_equal. lia.
    + apply flat_map_ext. intros i. f_equal. rewrite Hk. lia.
Qed.

Lemma writes_for_each_range (k D : Z) (body : Z -> M unit)
      (vsx : Z -> list vec3) (fsx : Z -> Z -> list tri) :
  (forall i, In i (range D) ->
     writes (body i) tt (vsx i) (fsx i)
     /\ Z.of_nat (length (vsx i)) = k) ->
  writes (for_each (range D) body) tt (flat_map vsx (range D))
    (fun b => flat_map (fun i => fsx i (b + k * i)%Z) (range D)).
Proof.
  intros Hbody. unfold range.
  eapply writes_ext; [reflexivity| |apply (writes_for_each_seq k)].
  - intros b _. cbn beta. apply flat_map_ext. intros i.
    change (Z.of_nat 0) with 0%Z. now rewrite Z.sub_0_r.
  - intros i Hi. apply Hbody. unfold range. apply in_map_iff.
    exists (Z.to_nat i). split; [lia|]. apply in_seq. lia.
Qed.

Lemma of_nat_succ_pred (n : nat) : (Z.of_nat (n + 1) - 1)%Z = Z.of_nat n.
Proof. lia. Qed.

Lemma writes_quad (q1 q2 q3 q4 : vec3) :
  writes
    (p1 <- add_vertex q1 ;;
     p2 <- add_vertex q2 ;;
     p3 <- add_vertex q3 ;;
     p4 <- add_vertex q4 ;;
     add_tri p1 p2 p3 ;;
     add_tri p1 p3 p4) tt [q1; q2; q3; q4] quad_faces.
Proof.
  intros [vs fs]. unfold bind, add_vertex, add_tri, quad_faces.
  cbn [vertices faces]. rewrite !length_app. cbn [length].
  rewrite !of_nat_succ_pred, !Nat2Z.inj_add, <- !Z.add_assoc, <- !app_assoc.
  reflexivity.
Qed.

Lemma writes_fan (flip : bool) (c : Z) (q1 q2 : vec3) :
  writes
    (p1 <- add_vertex q1 ;;
     p2 <- add_vertex q2 ;;
     if flip then add_tri c p2 p1 else add_tri c p1 p2) tt [q1; q2]
    (fun b => [if flip then (c, b + 1, b) else (c, b, b + 1)]%Z).
Proof.
  intros [vs fs]. unfold bind, add_vertex. cbn [vertices faces].
  destruct flip; unfold add_tri; cbn [vertices faces];
    rewrite !length_app; cbn [length];
    rewrite !of_nat_succ_pred, !Nat2Z.inj_add, <- !app_assoc;
    reflexivity.
Qed.

Lemma writes_with_vertex (q : vec3) (k : Z -> M unit) (vs : list vec3)
      (fs : Z -> Z -> list tri) :
  (forall c, writes (k c) tt vs (fs c)) ->
  writes (c <- add_vertex q ;; k c) tt (q :: vs) (fun b => fs b (b + 1)%Z).
Proof.
  intros Hk [vs0 fs0]. unfold bind, add_vertex. cbn [vertices faces].
  rewrite Hk. cbn [vertices faces]. rewrite length_app. cbn [length].
  rewrite of_nat_succ_pred, Nat2Z.inj_add, <- app_assoc. reflexivity.
Qed.

End Writes.

Section ClosedForm.

Variables (P : Params) (D : Z).

Lemma flat_map_length_const {X Y : Type} (f : X -> list Y) (c : nat)
      (xs : list X) :
  (forall x, In x xs -> length (f x) = c) ->
  length (flat_map f xs) = (c * length xs)%nat.
Proof.
  induction xs as [|x xs IH]; intros H; cbn [flat_map length].
  - lia.
  - rewrite length_app, H, IH; [lia| |now left].
    intros y Hy. apply H. now right.
Qed.

(** Rows of a grid hold [4 * detail] vertices inside the loop. *)
Lemma row_length (cell : Z -> list vec3) (i : Z) :
  In i (range D) -> (forall j, length (cell j) = 4%nat) ->
  Z.of_nat (length (flat_map cell (range D))) = (4 * D)%Z.
Proof.
  intros Hi Hc. apply range_In in Hi.
  rewrite (flat_map_length_const cell 4) by (intros; apply Hc).
  rewrite range_length. lia.
Qed.

Lemma quad_rows_faces (b : Z) :
  flat_map (fun i =>
    flat_map (fun j => quad_faces (b + 4 * D * i + 4 * j)) (range D))
    (range D)
  = quad_grid_faces D b.
Proof.
  unfold quad_grid_faces. apply flat_map_ext. intros i.
  apply flat_map_ext. intros j. f_equal. ring.
Qed.

Lemma outer_surface_writes :
  writes (outer_surface P D) tt (grid D (outer_cell P D)) (quad_grid_faces D).
Proof.
  unfold outer_surface.
  eapply writes_ext;
    [reflexivity | intros b _; apply (quad_rows_faces b) |].
  apply (writes_for_each_range (4 * D) D _
           (fun i => flat_map (outer_cell P D i) (range D))
           (fun i b => flat_map (fun j => quad_faces (b + 4 * j)) (range D))).
  intros i Hi. pose proof (range_In_divisor _ _ Hi) as HD. split.
  - do 2 (apply writes_fdiv; [exact HD|]).
    apply (writes_for_each_range 4 D _ (outer_cell P D i)
             (fun j b => quad_faces b)).
    intros j Hj. split; [|reflexivity].
    do 2 (apply writes_v_at; [exact HD|]).
    apply writes_quad.
  - now apply (row_length _ i).
Qed.

Lemma transition_surface_writes :
  writes (transition_surface P D) tt (grid D (transition_cell P D))
    (quad_grid_faces D).
Proof.
  unfold transition_surface. cbv zeta.
  eapply writes_ext;
    [reflexivity | intros b _; apply (quad_rows_faces b) |].
  apply (writes_for_each_range (4 * D) D _
           (fun i => flat_map (transition_cell P D i) (range D))
           (fun i b => flat_map (fun j => quad_faces (b + 4 * j)) (range D))).
  intros i Hi. pose proof (range_In_divisor _ _ Hi) as HD. split.
  - do 2 (apply writes_fdiv; [exact HD|]).
    apply (writes_for_each_range 4 D _ (transition_cell P D i)
             (fun j b => quad_faces b)).
    intros j Hj. split; [|reflexivity].
    do 2 (apply writes_v_at; [exact HD|]).
    apply writes_quad.
  - now apply (row_length _ i).
Qed.

Lemma mount_side_wall_writes :
  writes (mount_side_wall P D) tt (flat_map (side_cell P D) (range D))
    (quad_strip_faces D).
Proof.
  unfold mount_side_wall.
  apply (writes_for_each_range 4 D _ (side_cell P D) (fun i b => quad_faces b)).
  intros i Hi. pose proof (range_In_divisor _ _ Hi) as HD.
  split; [|reflexivity].
  do 2 (apply writes_v_at; [exact HD|]).
  apply writes_quad.
Qed.

Lemma fan_rows_faces (flip : bool) (c : Z) :
  flat_map (fun j =>
    [if flip then (c, c + 1 + 2 * j + 1, c + 1 + 2 * j)
     else (c, c + 1 + 2 * j, c + 1 + 2 * j + 1)]%Z) (range D)
  = fan_faces flip D c.
Proof.
  unfold fan_faces. rewrite flat_map_concat_map.
  induction (range D) as [|j js IH]; [reflexivity|].
  cbn [map concat app]. rewrite IH. f_equal.
  unfold fan_face.
  replace (c + 1 + 2 * j + 1)%Z with (c + 2 + 2 * j)%Z by lia.
  now destruct flip.
Qed.

Lemma bottom_cap_writes :
  writes (bottom_cap P D) tt
    (bottom_centre P :: flat_map (bottom_rim_cell P D) (range D))
    (fan_faces false D).
Proof.
  unfold bottom_cap.
  eapply writes_ext;
    [reflexivity | intros b _; apply (fan_rows_faces false b) |].
  apply (writes_with_vertex _ _ _
           (fun c b => flat_map (fun j => [(c, b + 2 * j, b + 2 * j + 1)%Z])
                         (range D))).
  intros c.
  apply (writes_for_each_range 2 D _ (bottom_rim_cell P D)
           (fun j b => [(c, b, b + 1)%Z])).
  intros j Hj. pose proof (range_In_divisor _ _ Hj) as HD.
  split; [|reflexivity].
  do 2 (apply writes_v_at; [exact HD|]).
  apply (writes_fan false).
Qed.

Lemma top_cap_writes :
  writes (top_cap P D) tt
    (top_centre P :: flat_map (top_rim_cell P D) (range D))
    (fan_faces true D).
Proof.
  unfold top_cap.
  eapply writes_ext;
    [reflexivity | intros b _; apply (fan_rows_faces true b) |].
  apply (writes_with_vertex _ _ _
           (fun c b => flat_map (fun j => [(c, b + 2 * j + 1, b + 2 * j)%Z])
                         (range D))).
  intros c.
  apply (writes_for_each_range 2 D _ (top_rim_cell P D)
           (fun j b => [(c, b + 1, b)%Z])).
  intros j Hj. pose proof (range_In_divisor _ _ Hj) as HD.
  split; [|reflexivity].
  do 2 (apply writes_v_at; [exact HD|]).
  apply (writes_fan true).
Qed.

End ClosedForm.

Section WholeMesh.

Variable P : Params.

Lemma grid_length (D : Z) (cell : Z -> Z -> list vec3) :
  (forall i j, length (cell i j) = 4%nat) ->
  Z.of_nat (length (grid D cell)) = (4 * Z.max D 0 * Z.max D 0)%Z.
Proof.
  intros Hc. unfold grid.
  rewrite (flat_map_length_const _ (4 * Z.to_nat D)).
  - rewrite range_length. lia.
  - intros i _. rewrite (flat_map_length_const _ 4) by (intros; apply Hc).
    now rewrite range_length.
Qed.

Lemma strip_length (D : Z) (c : nat) (cell : Z -> list vec3) :
  (forall j, length (cell j) = c) ->
  Z.of_nat (length (flat_map cell (range D))) = (Z.of_nat c * Z.max D 0)%Z.
Proof.
  intros Hc. rewrite (flat_map_length_const _ c) by (intros; apply Hc).
  rewrite range_length. lia.
Qed.

Lemma shell_vertices_length :
  Z.of_nat (length (shell_vertices P))
  = (4 * Z.max (detail P) 0 * Z.max (detail P) 0)%Z.
Proof. apply grid_length. reflexivity. Qed.

Lemma bottom_cap_vertices_length :
  Z.of_nat (length (bottom_cap_vertices P)) = (2 * Z.max (detail P) 0 + 1)%Z.
Proof.
  unfold bottom_cap_vertices. cbn [length].
  rewrite Nat2Z.inj_succ, (strip_length _ 2) by reflexivity. lia.
Qed.

Lemma transition_vertices_length :
  Z.of_nat (length (transition_vertices P))
  = (4 * Z.max (detail P) 0 * Z.max (detail P) 0)%Z.
Proof. apply grid_length. reflexivity. Qed.

Lemma side_wall_vertices_length :
  Z.of_nat (length (side_wall_vertices P)) = (4 * Z.max (detail P) 0)%Z.
Proof. unfold side_wall_vertices. now rewrite (strip_length _ 4). Qed.

Lemma top_cap_vertices_length :
  Z.of_nat (length (top_cap_vertices P)) = (2 * Z.max (detail P) 0 + 1)%Z.
Proof.
  unfold top_cap_vertices. cbn [length].
  rewrite Nat2Z.inj_succ, (strip_length _ 2) by reflexivity. lia.
Qed.

(** The five regions, run from empty arrays. *)
Lemma build_regions_closed_form :
  build_regions P empty_mesh
  = Some (tt, mkMesh (mesh_vertices P) (mesh_faces (detail P))).
Proof.
  pose proof (writes_seq _ _ _ _ _ _ (outer_surface_writes P (detail P))
    (writes_seq _ _ _ _ _ _ (bottom_cap_writes P (detail P))
      (writes_seq _ _ _ _ _ _ (transition_surface_writes P (detail P))
        (writes_seq _ _ _ _ _ _ (mount_side_wall_writes P (detail P))
          (top_cap_writes P (detail P)))))) as H.
  unfold build_regions. rewrite (H empty_mesh).
  change (vertices empty_mesh) with (@nil vec3).
  change (faces empty_mesh) with (@nil tri).
  rewrite !app_nil_l. change (Z.of_nat (@length vec3 [])) with 0%Z.
  fold (shell_vertices P) (bottom_cap_vertices P) (transition_vertices P)
    (side_wall_vertices P) (top_cap_vertices P).
  fold (mesh_vertices P).
  rewrite shell_vertices_length, bottom_cap_vertices_length,
    transition_vertices_length, side_wall_vertices_length.
  do 3 f_equal. unfold mesh_faces.
  destruct (Z_le_gt_dec (detail P) 0) as [Hd|Hd].
  - unfold quad_grid_faces, quad_strip_faces, fan_faces.
    now rewrite (range_nonpositive _ Hd).
  - rewrite Z.max_l by lia.
    repeat (apply f_equal2; [first [reflexivity | f_equal; ring]|]).
    ring.
Qed.

End WholeMesh.

(** Size of the closed-form vertex array. *)
Lemma mesh_vertices_length (P : Params) :
  Z.of_nat (length (mesh_vertices P))
  = (8 * Z.max (detail P) 0 * Z.max (detail P) 0
     + 8 * Z.max (detail P) 0 + 2)%Z.
Proof.
  unfold mesh_vertices. rewrite !length_app, !Nat2Z.inj_add.
  rewrite shell_vertices_length, bottom_cap_vertices_length,
    transition_vertices_length, side_wall_vertices_length,
    top_cap_vertices_length.
  ring.
Qed.

(** For every parameter value the build returns the closed-form arrays. *)
Theorem build_mesh_arrays_closed_form (P : Params) :
  build_mesh_arrays P
  = (derive P, Some (mesh_vertices (derive P), mesh_faces (detail P))).
Proof.
  unfold build_mesh_arrays. now rewrite build_regions_closed_form.
Qed.

(** * Consequences of the closed form *)

Section Faces.

Lemma range_In_iff (n i : Z) : In i (range n) <-> (0 <= i < n)%Z.
Proof.
  split; [apply range_In|]. intros H. unfold range. apply in_map_iff.
  exists (Z.to_nat i). split; [lia|]. apply in_seq. lia.
Qed.

Lemma quad_faces_distinct (b : Z) : Forall distinct_indices (quad_faces b).
Proof. unfold quad_faces, distinct_indices. repeat constructor; lia. Qed.

Lemma fan_face_distinct (flip : bool) (c j : Z) :
  (0 <= j)%Z -> distinct_indices (fan_face flip c j).
Proof. intros H. unfold fan_face, distinct_indices. destruct flip; lia. Qed.

Lemma Forall_flat_map_in {X Y : Type} (Q : Y -> Prop) (f : X -> list Y)
      (xs : list X) :
  (forall x, In x xs -> Forall Q (f x)) -> Forall Q (flat_map f xs).
Proof.
  intros H. apply Forall_forall. intros y Hy.
  apply in_flat_map in Hy as (x & Hx & Hy).
  exact (proj1 (Forall_forall _ _) (H x Hx) y Hy).
Qed.

Lemma mesh_faces_distinct (D : Z) : Forall distinct_indices (mesh_faces D).
Proof.
  unfold mesh_faces, quad_grid_faces, quad_strip_faces, fan_faces.
  repeat rewrite Forall_app.
  repeat split;
    repeat (apply Forall_flat_map_in; intros);
    try apply quad_faces_distinct;
    apply Forall_forall; intros t Ht;
    apply in_map_iff in Ht as (j & <- & Hj%range_In);
    apply fan_face_distinct; lia.
Qed.

End Faces.

(** No returned triangle repeats an index: its three corners are three
    different rows of the vertex array. *)
Theorem build_mesh_arrays_faces_distinct (P : Params) :
  exists (V : list vec3) (F : list tri),
    snd (build_mesh_arrays P) = Some (V, F) /\ Forall distinct_indices F.
Proof.
  exists (mesh_vertices (derive P)), (mesh_faces (detail P)).
  unfold build_mesh_arrays. rewrite build_regions_closed_form.
  split; [reflexivity | apply mesh_faces_distinct].
Qed.

(** For every parameter value the build returns [4*D^2 + 4*D] triangles and
    [8*D^2 + 8*D + 2] vertices, where [D = max(detail, 0)]. *)
Theorem build_mesh_arrays_totals (P : Params) :
  let D := Z.max (detail P) 0 in
  exists (V : list vec3) (F : list tri),
    snd (build_mesh_arrays P) = Some (V, F)
    /\ Z.of_nat (length F) = (4 * D * D + 4 * D)%Z
    /\ Z.of_nat (length V) = (8 * D * D + 8 * D + 2)%Z.
Proof.
  intros D. destruct (build_regions_totals (derive P)) as (s & E & HF & HV).
  exists (vertices s), (faces s). unfold build_mesh_arrays. cbn [snd].
  rewrite E. split; [reflexivity|]. split; [exact HF | exact HV].
Qed.

Section Rims.

Variable P : Params.

Let D : Z := detail P.

Hypothesis HD : (1 <= D)%Z.

Lemma frac_zero : IZR 0 / IZR D = 0.
Proof. unfold Rdiv. apply Rmult_0_l. Qed.

Lemma frac_full : IZR (D - 1 + 1) / IZR D = 1.
Proof.
  replace (D - 1 + 1)%Z with D by lia. apply Rdiv_diag.
  apply not_0_IZR. lia.
Qed.

Lemma frac_unit (i : Z) : (0 <= i <= D)%Z -> 0 <= IZR i / IZR D <= 1.
Proof.
  intros [H0 H1]. apply IZR_le in H0, H1.
  assert (Hd : 1 <= IZR D) by (apply IZR_le in HD; exact HD).
  assert (Hq : IZR i / IZR D * IZR D = IZR i) by (field; lra).
  set (q := IZR i / IZR D) in *. split; nra.
Qed.

Lemma In_grid (cell : Z -> Z -> list vec3) (q : vec3) :
  In q (grid D cell)
  <-> exists i j, (0 <= i < D)%Z /\ (0 <= j < D)%Z /\ In q (cell i j).
Proof.
  unfold grid. rewrite in_flat_map. split.
  - intros (i & Hi & Hq). apply in_flat_map in Hq as (j & Hj & Hq).
    exists i, j. apply range_In in Hi, Hj. auto.
  - intros (i & j & Hi & Hj & Hq). exists i.
    split; [now apply range_In_iff|]. apply in_flat_map. exists j.
    split; [now apply range_In_iff|exact Hq].
Qed.

Lemma In_strip (cell : Z -> list vec3) (q : vec3) :
  In q (flat_map cell (range D))
  <-> exists j, (0 <= j < D)%Z /\ In q (cell j).
Proof.
  rewrite in_flat_map. split; intros (j & Hj & Hq); exists j;
    (split; [now apply range_In_iff|exact Hq]).
Qed.

(** Each sample [0..D] of a ring is the first angle of a cell or the
    second angle of the last one. *)
Lemma ring_sample (j : Z) :
  (0 <= j <= D)%Z ->
  exists j', (0 <= j' < D)%Z /\ (j = j' \/ j = j' + 1)%Z.
Proof.
  intros H. destruct (Z.eq_dec j D) as [E|E].
  - exists (D - 1)%Z. lia.
  - exists j. lia.
Qed.

(** The rim of the bottom fan lies on the last row of the shell. *)
Lemma bottom_rim_on_shell (q : vec3) :
  In q (bottom_cap_vertices P) ->
  q = bottom_centre P \/ In q (shell_vertices P).
Proof.
  unfold bottom_cap_vertices, shell_vertices. fold D.
  intros [<-|Hq]; [now left|right].
  apply In_strip in Hq as (j & Hj & Hq). apply In_grid.
  exists (D - 1)%Z, j. split; [lia|]. split; [exact Hj|].
  unfold outer_cell. rewrite frac_full.
  unfold bottom_rim_cell in Hq. cbn [In] in *. tauto.
Qed.

(** The rim of the top fan lies on the upper edge of the side wall. *)
Lemma top_rim_on_side_wall (q : vec3) :
  In q (top_cap_vertices P) ->
  q = top_centre P \/ In q (side_wall_vertices P).
Proof.
  unfold top_cap_vertices, side_wall_vertices. fold D.
  intros [<-|Hq]; [now left|right].
  apply In_strip in Hq as (j & Hj & Hq). apply In_strip.
  exists j. split; [exact Hj|].
  unfold side_cell, top_rim_cell in *. cbn [In] in *. tauto.
Qed.

(** Blending towards the mount with weight 0 gives back the rim sample. *)
Lemma transition_start (a tx ty tz : R) :
  mkVec3 (lerp (vx (compute_outer_vertex 0 a P)) tx 0)
         (lerp (IZR (cylinderHeight P) / 2) ty 0)
         (lerp (vz (compute_outer_vertex 0 a P)) tz 0)
  = compute_outer_vertex 0 a P.
Proof.
  unfold compute_outer_vertex, lerp. cbn [vx vz]. f_equal; ring.
Qed.

(** Blending with weight 1 gives the mount circle at [cylBottomY]. *)
Lemma transition_end (a bx by' bz : R) :
  mkVec3 (lerp bx (mountCylinderOuterDiameter P / 2 * cos a) 1)
         (lerp by' (IZR (cylinderHeight P) / 2 + transitionHeight P) 1)
         (lerp bz (mountCylinderOuterDiameter P / 2 * sin a) 1)
  = mount_point P a (cylBottomY P).
Proof.
  unfold mount_point, r_out, cylBottomY, lerp. f_equal; ring.
Qed.

(** The shell's top row and the transition's first row share the top rim. *)
Lemma top_rim_shared (j : Z) :
  (0 <= j <= D)%Z ->
  In (compute_outer_vertex 0 (angle j D) P) (shell_vertices P)
  /\ In (compute_outer_vertex 0 (angle j D) P) (transition_vertices P).
Proof.
  intros Hj. destruct (ring_sample j Hj) as (j' & Hj' & Hc).
  unfold shell_vertices, transition_vertices. fold D. split; apply In_grid;
    exists 0%Z, j'; (split; [lia|]); (split; [exact Hj'|]).
  - unfold outer_cell. rewrite frac_zero.
    destruct Hc as [->| ->]; cbn [In]; tauto.
  - unfold transition_cell. cbv zeta. rewrite frac_zero, !transition_start.
    destruct Hc as [->| ->]; cbn [In]; tauto.
Qed.

(** The transition's last row and the side wall's lower edge share the
    mount circle. *)
Lemma mount_ring_shared (j : Z) :
  (0 <= j <= D)%Z ->
  In (mount_point P (angle j D) (cylBottomY P)) (transition_vertices P)
  /\ In (mount_point P (angle j D) (cylBottomY P)) (side_wall_vertices P).
Proof.
  intros Hj. destruct (ring_sample j Hj) as (j' & Hj' & Hc).
  unfold transition_vertices, side_wall_vertices. fold D. split.
  - apply In_grid. exists (D - 1)%Z, j'. split; [lia|]. split; [exact Hj'|].
    unfold transition_cell. cbv zeta. cbn [vx vz]. rewrite frac_full, !transition_end.
    destruct Hc as [->| ->]; cbn [In]; tauto.
  - apply In_strip. exists j'. split; [exact Hj'|]. unfold side_cell.
    destruct Hc as [->| ->]; cbn [In]; tauto.
Qed.

End Rims.

(** With [detail >= 1] the two fans add no new rim: every vertex of the
    bottom cap other than its centre is a vertex of the outer shell, and
    every vertex of the top cap other than its centre is a vertex of the
    mount side wall. *)
Theorem build_mesh_arrays_caps_on_rims (P : Params) :
  (1 <= detail P)%Z ->
  let Q := derive P in
  snd (build_mesh_arrays P)
  = Some (shell_vertices Q ++ bottom_cap_vertices Q ++ transition_vertices Q
          ++ side_wall_vertices Q ++ top_cap_vertices Q,
          mesh_faces (detail P))
  /\ (forall q, In q (bottom_cap_vertices Q) ->
        q = bottom_centre Q \/ In q (shell_vertices Q))
  /\ (forall q, In q (top_cap_vertices Q) ->
        q = top_centre Q \/ In q (side_wall_vertices Q)).
Proof.
  intros HD Q. split; [|split].
  - unfold build_mesh_arrays. now rewrite build_regions_closed_form.
  - exact (bottom_rim_on_shell Q HD).
  - exact (top_rim_on_side_wall Q).
Qed.

Lemma build_mesh_arrays_caps_on_rims_witness :
  let Q := derive default_params in
  snd (build_mesh_arrays default_params)
  = Some (shell_vertices Q ++ bottom_cap_vertices Q ++ transition_vertices Q
          ++ side_wall_vertices Q ++ top_cap_vertices Q,
          mesh_faces (detail default_params))
  /\ (forall q, In q (bottom_cap_vertices Q) ->
        q = bottom_centre Q \/ In q (shell_vertices Q))
  /\ (forall q, In q (top_cap_vertices Q) ->
        q = top_centre Q \/ In q (side_wall_vertices Q)).
Proof. apply (build_mesh_arrays_caps_on_rims default_params). cbn. lia. Defined.

(** With [detail = D >= 1] neighbouring regions meet along whole rings: for
    every sample [j = 0..D] the top-rim point of the shell is also a vertex
    of the transition, and the mount-circle point at the transition's top
    is also a vertex of the side wall. *)
Theorem build_mesh_arrays_rings_shared (P : Params) (j : Z) :
  (1 <= detail P)%Z -> (0 <= j <= detail P)%Z ->
  let Q := derive P in
  let a := angle j (detail P) in
  snd (build_mesh_arrays P)
  = Some (shell_vertices Q ++ bottom_cap_vertices Q ++ transition_vertices Q
          ++ side_wall_vertices Q ++ top_cap_vertices Q,
          mesh_faces (detail P))
  /\ In (compute_outer_vertex 0 a Q) (shell_vertices Q)
  /\ In (compute_outer_vertex 0 a Q) (transition_vertices Q)
  /\ In (mount_point Q a (cylBottomY Q)) (transition_vertices Q)
  /\ In (mount_point Q a (cylBottomY Q)) (side_wall_vertices Q).
Proof.
  intros HD Hj Q a.
  destruct (top_rim_shared Q HD j Hj) as [H1 H2].
  destruct (mount_ring_shared Q HD j Hj) as [H3 H4].
  split.
  - unfold build_mesh_arrays. now rewrite build_regions_closed_form.
  - repeat split; assumption.
Qed.

Lemma build_mesh_arrays_rings_shared_witness :
  let Q := derive default_params in
  let a := angle 7 (detail default_params) in
  snd (build_mesh_arrays default_params)
  = Some (shell_vertices Q ++ bottom_cap_vertices Q ++ transition_vertices Q
          ++ side_wall_vertices Q ++ top_cap_vertices Q,
          mesh_faces (detail default_params))
  /\ In (compute_outer_vertex 0 a Q) (shell_vertices Q)
  /\ In (compute_outer_vertex 0 a Q) (transition_vertices Q)
  /\ In (mount_point Q a (cylBottomY Q)) (transition_vertices Q)
  /\ In (mount_point Q a (cylBottomY Q)) (side_wall_vertices Q).
Proof.
  apply (build_mesh_arrays_rings_shared default_params 7); cbn; lia.
Defined.

Section HeightRange.

Variable P : Params.

Hypothesis Hh : (0 <= cylinderHeight P)%Z.
Hypothesis Ht : 0 <= transitionHeight P.
Hypothesis Hm : 0 <= mountCylinderHeight P.

(** Bottom of the shade and top of the mount. *)
Let in_range (q : vec3) : Prop :=
  - IZR (cylinderHeight P) / 2 <= vy q <= cylTopY P.

Lemma outer_vertex_in_range (u v : R) :
  0 <= u <= 1 -> in_range (compute_outer_vertex u v P).
Proof.
  intros Hu. unfold in_range, cylTopY, cylBottomY.
  rewrite compute_outer_vertex_height.
  apply IZR_le in Hh. split; nra.
Qed.

Lemma mesh_vertices_in_range : Forall in_range (mesh_vertices P).
Proof.
  apply IZR_le in Hh as Hh'.
  unfold mesh_vertices. repeat rewrite Forall_app. repeat split;
    apply Forall_forall; intros q Hq.
  - apply In_grid in Hq as (i & j & Hi & Hj & Hq).
    assert (HD : (1 <= detail P)%Z) by lia.
    pose proof (frac_unit P HD i ltac:(lia)).
    pose proof (frac_unit P HD (i + 1) ltac:(lia)).
    unfold outer_cell in Hq. cbn [In] in Hq.
    destruct Hq as [<-|[<-|[<-|[<-|[]]]]]; now apply outer_vertex_in_range.
  - destruct Hq as [<-|Hq].
    + unfold in_range, bottom_centre, cylTopY, cylBottomY. cbn [vy].
      rewrite opp_IZR. split; lra.
    + apply In_strip in Hq as (j & Hj & Hq).
      unfold bottom_rim_cell in Hq. cbn [In] in Hq.
      destruct Hq as [<-|[<-|[]]]; apply outer_vertex_in_range; lra.
  - apply In_grid in Hq as (i & j & Hi & Hj & Hq).
    assert (HD : (1 <= detail P)%Z) by lia.
    pose proof (frac_unit P HD i ltac:(lia)).
    pose proof (frac_unit P HD (i + 1) ltac:(lia)).
    unfold transition_cell in Hq. cbv zeta in Hq. cbn [In] in Hq.
    set (t1 := IZR i / IZR (detail P)) in *.
    set (t2 := IZR (i + 1) / IZR (detail P)) in *.
    unfold in_range, cylTopY, cylBottomY.
    destruct Hq as [<-|[<-|[<-|[<-|[]]]]]; cbn [vy]; unfold lerp; split; nra.
  - apply In_strip in Hq as (j & Hj & Hq).
    unfold side_cell in Hq. cbn [In] in Hq.
    unfold in_range, cylTopY, cylBottomY.
    destruct Hq as [<-|[<-|[<-|[<-|[]]]]]; cbn [vy mount_point];
      unfold cylTopY, cylBottomY; split; lra.
  - unfold in_range. destruct Hq as [<-|Hq].
    + unfold top_centre, cylTopY, cylBottomY. cbn [vy]. split; lra.
    + apply In_strip in Hq as (j & Hj & Hq).
      unfold top_rim_cell in Hq. cbn [In] in Hq.
      destruct Hq as [<-|[<-|[]]]; cbn [vy mount_point];
        unfold cylTopY, cylBottomY; split; lra.
Qed.

End HeightRange.

Section Coverage.

Variable D : Z.

Hypothesis HD : (1 <= D)%Z.

Lemma quad_faces_cover (b k : Z) :
  (b <= k < b + 4)%Z -> Exists (uses_index k) (quad_faces b).
Proof.
  intros H. unfold quad_faces.
  destruct (Z.eq_dec k (b + 3)) as [E|E].
  - apply Exists_cons_tl, Exists_cons_hd. unfold uses_index. lia.
  - apply Exists_cons_hd. unfold uses_index. lia.
Qed.

Lemma quad_strip_cover (b k : Z) :
  (b <= k < b + 4 * D)%Z -> Exists (uses_index k) (quad_strip_faces D b).
Proof.
  intros H. apply Exists_exists.
  pose proof (Z.div_mod (k - b) 4 ltac:(lia)) as Hdm.
  pose proof (Z.mod_pos_bound (k - b) 4 ltac:(lia)) as Hr.
  set (i := ((k - b) / 4)%Z) in *.
  assert (Hi : (0 <= i < D)%Z) by lia.
  destruct (proj1 (Exists_exists _ _)
              (quad_faces_cover (b + 4 * i) k ltac:(lia))) as (t & Ht & Hu).
  exists t. split; [|exact Hu].
  unfold quad_strip_faces. apply in_flat_map. exists i.
  split; [now apply range_In_iff | exact Ht].
Qed.

Lemma quad_grid_cover (b k : Z) :
  (b <= k < b + 4 * D * D)%Z -> Exists (uses_index k) (quad_grid_faces D b).
Proof.
  intros H. apply Exists_exists.
  pose proof (Z.div_mod (k - b) 4 ltac:(lia)) as Hdm.
  pose proof (Z.mod_pos_bound (k - b) 4 ltac:(lia)) as Hr.
  set (m := ((k - b) / 4)%Z) in *.
  assert (Hm : (0 <= m < D * D)%Z) by nia.
  pose proof (Z.div_mod m D ltac:(lia)) as Hdm'.
  pose proof (Z.mod_pos_bound m D ltac:(lia)) as Hj.
  set (i := (m / D)%Z) in *. set (j := (m mod D)%Z) in *.
  assert (Hi : (0 <= i < D)%Z) by nia.
  destruct (proj1 (Exists_exists _ _)
              (quad_faces_cover (b + 4 * (i * D + j)) k ltac:(lia)))
    as (t & Ht & Hu).
  exists t. split; [|exact Hu].
  unfold quad_grid_faces. apply in_flat_map. exists i.
  split; [now apply range_In_iff|]. apply in_flat_map. exists j.
  split; [now apply range_In_iff | exact Ht].
Qed.

Lemma fan_cover (flip : bool) (c k : Z) :
  (c <= k < c + 2 * D + 1)%Z -> Exists (uses_index k) (fan_faces flip D c).
Proof.
  intros H. apply Exists_exists.
  destruct (Z.eq_dec k c) as [E|E].
  - exists (fan_face flip c 0). split.
    + unfold fan_faces. apply in_map, range_In_iff. lia.
    + unfold fan_face, uses_index. destruct flip; lia.
  - pose proof (Z.div_mod (k - c - 1) 2 ltac:(lia)) as Hdm.
    pose proof (Z.mod_pos_bound (k - c - 1) 2 ltac:(lia)) as Hr.
    set (j := ((k - c - 1) / 2)%Z) in *.
    exists (fan_face flip c j). split.
    + unfold fan_faces. apply in_map, range_In_iff. lia.
    + unfold fan_face, uses_index. destruct flip; lia.
Qed.

Lemma Exists_app_l {X : Type} (Q : X -> Prop) (l1 l2 : list X) :
  Exists Q l1 -> Exists Q (l1 ++ l2).
Proof. intros H. apply Exists_app. now left. Qed.

Lemma Exists_app_r {X : Type} (Q : X -> Prop) (l1 l2 : list X) :
  Exists Q l2 -> Exists Q (l1 ++ l2).
Proof. intros H. apply Exists_app. now right. Qed.

Lemma mesh_faces_cover (k : Z) :
  (0 <= k < 8 * D * D + 8 * D + 2)%Z -> Exists (uses_index k) (mesh_faces D).
Proof.
  intros H. unfold mesh_faces.
  destruct (Z_lt_ge_dec k (4 * D * D)) as [H1|H1].
  { apply Exists_app_l, quad_grid_cover. lia. }
  apply Exists_app_r.
  destruct (Z_lt_ge_dec k (4 * D * D + 2 * D + 1)) as [H2|H2].
  { apply Exists_app_l, fan_cover. lia. }
  apply Exists_app_r.
  destruct (Z_lt_ge_dec k (8 * D * D + 2 * D + 1)) as [H3|H3].
  { apply Exists_app_l, quad_grid_cover. lia. }
  apply Exists_app_r.
  destruct (Z_lt_ge_dec k (8 * D * D + 6 * D + 1)) as [H4|H4].
  { apply Exists_app_l, quad_strip_cover. lia. }
  apply Exists_app_r, fan_cover. lia.
Qed.

End Coverage.

(** With [detail >= 1] every returned vertex is a corner of at least one
    returned triangle. *)
Theorem build_mesh_arrays_vertices_used (P : Params) :
  (1 <= detail P)%Z ->
  exists (V : list vec3) (F : list tri),
    snd (build_mesh_arrays P) = Some (V, F)
    /\ Forall (fun k => Exists (uses_index k) F) (range (Z.of_nat (length V))).
Proof.
  intros HD.
  pose proof (mesh_vertices_length (derive P)) as HV.
  exists (mesh_vertices (derive P)), (mesh_faces (detail P)).
  unfold build_mesh_arrays. rewrite build_regions_closed_form.
  split; [reflexivity|]. apply Forall_forall. intros k Hk%range_In.
  apply mesh_faces_cover; [exact HD|].
  change (detail (derive P)) with (detail P) in HV.
  rewrite HV, Z.max_l in Hk by lia. exact Hk.
Qed.

Lemma build_mesh_arrays_vertices_used_witness :
  exists (V : list vec3) (F : list tri),
    snd (build_mesh_arrays default_params) = Some (V, F)
    /\ Forall (fun k => Exists (uses_index k) F) (range (Z.of_nat (length V))).
Proof. apply (build_mesh_arrays_vertices_used default_params). cbn. lia. Defined.

(** With a non-negative cylinder height and mount height and an overhang
    angle of 0 up to 89 degrees, every returned vertex lies between the
    bottom cap at [-cylinderHeight/2] and the top cap at [cylTopY]. *)
Theorem build_mesh_arrays_height_range (P : Params) :
  (0 <= cylinderHeight P)%Z -> (0 <= overhangAngle P < 90)%Z ->
  0 <= mountCylinderHeight P ->
  exists (V : list vec3) (F : list tri),
    snd (build_mesh_arrays P) = Some (V, F)
    /\ Forall (fun q => - IZR (cylinderHeight P) / 2 <= vy q
                        <= cylTopY (derive P)) V.
Proof.
  intros Hh Ha Hm.
  exists (mesh_vertices (derive P)), (mesh_faces (detail P)).
  unfold build_mesh_arrays. rewrite build_regions_closed_form.
  split; [reflexivity|].
  apply (mesh_vertices_in_range (derive P)); [exact Hh| |exact Hm].
  exact (update_transition_height_nonneg P Ha).
Qed.

Lemma build_mesh_arrays_height_range_witness :
  exists (V : list vec3) (F : list tri),
    snd (build_mesh_arrays default_params) = Some (V, F)
    /\ Forall (fun q => - IZR (cylinderHeight default_params) / 2 <= vy q
                        <= cylTopY (derive default_params)) V.
Proof.
  apply (build_mesh_arrays_height_range default_params); cbn; try lia; lra.
Defined.

(** * Edge cases of the parameter derivation *)

(** When [featureDepthMin] exceeds the clearance between the smallest main
    radius and the mount radius, the depth left by
    [update_feature_depth_max] is too large: depth plus mount radius
    exceeds the smallest main radius. *)
Theorem featureDepthMin_forces_piercing (P : Params) :
  smallestMainCylinderRadius P - mountCylinderOuterDiameter P / 2
    < featureDepthMin P ->
  let P' := update_feature_depth_max P in
  smallestMainCylinderRadius P'
    < featureDepth P' + mountCylinderOuterDiameter P' / 2.
Proof. apply update_feature_depth_max_piercing. Qed.

Lemma featureDepthMin_forces_piercing_witness :
  let P' := update_feature_depth_max (custom_params 100 2 30 6 1 0 120) in
  smallestMainCylinderRadius P'
    < featureDepth P' + mountCylinderOuterDiameter P' / 2.
Proof.
  apply (featureDepthMin_forces_piercing (custom_params 100 2 30 6 1 0 120)).
  unfold smallestMainCylinderRadius, custom_params; cbn.
  unfold Rmin; repeat destruct Rle_dec; lra.
Defined.

(** A mount wider than the shade's top gives a negative [transitionWidth]
    and a [transitionHeight] of exactly 0, whatever the overhang angle. *)
Theorem update_transition_wide_mount (P : Params) :
  IZR (topDiameter P) < mountCylinderOuterDiameter P ->
  transitionWidth (update_transition P) < 0
  /\ transitionHeight (update_transition P) = 0.
Proof. apply update_transition_negative_width. Qed.

Lemma update_transition_wide_mount_witness :
  transitionWidth (update_transition (custom_params 0 2 10 6 1 0 120)) < 0
  /\ transitionHeight (update_transition (custom_params 0 2 10 6 1 0 120)) = 0.
Proof.
  apply (update_transition_wide_mount (custom_params 0 2 10 6 1 0 120)).
  cbn. lra.
Defined.
